(** * Make-Friends frontend: the store and search logic of [Home.js]

    A shallow embedding of the stateful part of [src/components/Home.js]:
    the six pieces of React state, the asynchronous fetch handlers with
    their [try]/[catch] blocks, and the debounced search.  The component is
    modelled as an event-driven machine: an asynchronous function runs up
    to its first [await] when it is called (the request is sent), and the
    rest of its body runs when the request settles.  The token does not
    change while the component is mounted, so the memoised callbacks are
    the same functions throughout and the token is left out. *)

From stdpp Require Import base option list strings gmap fin_maps numbers.

Open Scope string_scope.
Open Scope list_scope.

(** ** JavaScript values

    What [response.json()] can produce, plus [undefined] for a property that
    is absent.  Objects are finite maps from property names to values. *)

#[warnings="-register-all"]
Inductive value : Type :=
  | VUndefined
  | VNull
  | VBool (b : bool)
  | VNum (n : Z)
  | VStr (s : string)
  | VArr (l : list value)
  | VObj (o : gmap string value).

(** The exceptions the handlers can meet. *)
Inductive exn : Set :=
  | NetworkError   (* [fetch] rejects *)
  | SyntaxError    (* [response.json()] rejects *)
  | TypeError.     (* property read on [null] or [undefined], call of a non-function *)

(** [v.k] for a property name [k] that no prototype defines ([_id],
    [message], [status]): a [TypeError] on [null] and [undefined], the own
    property of an object, [undefined] everywhere else. *)
Definition get_prop (v : value) (k : string) : exn + value :=
  match v with
  | VUndefined | VNull => inl TypeError
  | VObj o => inr (default VUndefined (o !! k))
  | _ => inr VUndefined
  end.

(** [v === 's'] against a string. *)
Definition strict_eq_str (v : value) (s : string) : bool :=
  match v with
  | VStr s' => bool_decide (s' = s)
  | _ => false
  end.

(** The own enumerable properties [{...v}] copies.  An entry reaches the
    spread of [sendFriendRequest] only when its [_id] is the string
    [userId], so only objects are spread. *)
Definition spread (v : value) : gmap string value :=
  match v with
  | VObj o => o
  | _ => ∅
  end.

(** ** Remote calls *)

(** How a [fetch] settles.  A response carries the HTTP status and its body
    as [response.json()] reads it: [None] when the body is not JSON and
    [json()] rejects.  [fetch] itself rejects only when no response
    arrives; a non-2xx response resolves like any other. *)
Record response : Type := Response { http_status : N; body : option value }.

Inductive outcome : Type :=
  | Rejects
  | Resolves (r : response).

(** [response.ok] *)
Definition ok (r : response) : bool :=
  (200 <=? http_status r)%N && (http_status r <? 300)%N.

(** The three [fetch...] loaders. *)
Inductive loader : Set := Friends | Recommendations | PendingRequests.

(** An asynchronous function suspended at its [await fetch(...)].  A loader
    called from [fetchAllData] carries the loaders that [fetchAllData]
    still has to [await] after it. *)
Inductive task : Type :=
  | Load (which : loader) (rest : list loader)
  | Search (term : string)
  | SendFriendRequest (userId : string)
  | AcceptFriendRequest (userId : string)
  | Unfriend (userId : string).

(** ** Component state *)

Record notification : Type := Notification { message : value; type : string }.

Record state : Type := State {
  (* the [useState] cells *)
  searchTerm : string;
  searchResults : value;
  friends : value;
  recommendations : value;
  pendingRequests : value;
  notifications : notification;
  (* the environment *)
  console : list (string * exn);  (* what [console.error] wrote *)
  uncaught : list exn;          (* exceptions that escaped every [catch] *)
  now : N;                      (* clock, in ms *)
  timer : option (N * string);  (* pending call of [debouncedSearch]: due time, last argument *)
  inflight : list task;         (* requests sent and not yet settled, oldest first *)
  sent : list (N * task)        (* every request sent, with the time it was sent *)
}.

(** The state after the first render. *)
Definition initial : state :=
  {| searchTerm := ""; searchResults := VArr []; friends := VArr [];
     recommendations := VArr []; pendingRequests := VArr [];
     notifications := Notification (VStr "") "";
     console := []; uncaught := []; now := 0%N; timer := None;
     inflight := []; sent := [] |}.

Definition with_searchTerm (x : string) (st : state) : state :=
  State x (searchResults st) (friends st) (recommendations st) (pendingRequests st)
    (notifications st) (console st) (uncaught st) (now st) (timer st) (inflight st) (sent st).
Definition with_searchResults (x : value) (st : state) : state :=
  State (searchTerm st) x (friends st) (recommendations st) (pendingRequests st)
    (notifications st) (console st) (uncaught st) (now st) (timer st) (inflight st) (sent st).
Definition with_friends (x : value) (st : state) : state :=
  State (searchTerm st) (searchResults st) x (recommendations st) (pendingRequests st)
    (notifications st) (console st) (uncaught st) (now st) (timer st) (inflight st) (sent st).
Definition with_recommendations (x : value) (st : state) : state :=
  State (searchTerm st) (searchResults st) (friends st) x (pendingRequests st)
    (notifications st) (console st) (uncaught st) (now st) (timer st) (inflight st) (sent st).
Definition with_pendingRequests (x : value) (st : state) : state :=
  State (searchTerm st) (searchResults st) (friends st) (recommendations st) x
    (notifications st) (console st) (uncaught st) (now st) (timer st) (inflight st) (sent st).
Definition with_notifications (x : notification) (st : state) : state :=
  State (searchTerm st) (searchResults st) (friends st) (recommendations st) (pendingRequests st)
    x (console st) (uncaught st) (now st) (timer st) (inflight st) (sent st).
Definition with_console (x : list (string * exn)) (st : state) : state :=
  State (searchTerm st) (searchResults st) (friends st) (recommendations st) (pendingRequests st)
    (notifications st) x (uncaught st) (now st) (timer st) (inflight st) (sent st).
Definition with_uncaught (x : list exn) (st : state) : state :=
  State (searchTerm st) (searchResults st) (friends st) (recommendations st) (pendingRequests st)
    (notifications st) (console st) x (now st) (timer st) (inflight st) (sent st).
Definition with_now (x : N) (st : state) : state :=
  State (searchTerm st) (searchResults st) (friends st) (recommendations st) (pendingRequests st)
    (notifications st) (console st) (uncaught st) x (timer st) (inflight st) (sent st).
Definition with_timer (x : option (N * string)) (st : state) : state :=
  State (searchTerm st) (searchResults st) (friends st) (recommendations st) (pendingRequests st)
    (notifications st) (console st) (uncaught st) (now st) x (inflight st) (sent st).
Definition with_inflight (x : list task) (st : state) : state :=
  State (searchTerm st) (searchResults st) (friends st) (recommendations st) (pendingRequests st)
    (notifications st) (console st) (uncaught st) (now st) (timer st) x (sent st).
Definition with_sent (x : list (N * task)) (st : state) : state :=
  State (searchTerm st) (searchResults st) (friends st) (recommendations st) (pendingRequests st)
    (notifications st) (console st) (uncaught st) (now st) (timer st) (inflight st) x.

(** ** Handler bodies: state and exceptions *)

Inductive completion (A : Type) : Type :=
  | Returns (a : A)
  | Throws (e : exn).
Arguments Returns {A} a.
Arguments Throws {A} e.

Definition M (A : Type) : Type := state → completion A * state.

#[global] Instance M_ret : MRet M := λ A a st, (Returns a, st).
#[global] Instance M_bind : MBind M := λ A B f m st,
  match m st with
  | (Returns a, st') => f a st'
  | (Throws e, st') => (Throws e, st')
  end.

Definition throw {A} (e : exn) : M A := λ st, (Throws e, st).

(** [try { body } catch (error) { handler }] *)
Definition try_catch (body : M unit) (handler : exn → M unit) : M unit := λ st,
  match body st with
  | (Throws e, st') => handler e st'
  | r => r
  end.

Definition lift {A} (r : exn + A) : M A :=
  match r with
  | inl e => throw e
  | inr a => mret a
  end.

Definition modify (f : state → state) : M unit := λ st, (Returns (), f st).

(** ** The functions of [Home]

    An asynchronous function [f] is split at its first [await]: [f] is the
    call (it runs until the request is sent), [f_then] is the rest of the
    body, given how the awaited [fetch] settled.  The second [await], on
    [response.json()], is folded into the same step: nothing reads or
    writes the state between the two. *)

Definition setSearchTerm (x : string) : M unit := modify (with_searchTerm x).
Definition setSearchResults (x : value) : M unit := modify (with_searchResults x).
Definition setFriends (x : value) : M unit := modify (with_friends x).
Definition setRecommendations (x : value) : M unit := modify (with_recommendations x).
Definition setPendingRequests (x : value) : M unit := modify (with_pendingRequests x).
Definition setNotifications (x : notification) : M unit := modify (with_notifications x).

Definition console_error (line : string) (error : exn) : M unit :=
  modify (λ st, with_console (console st ++ [(line, error)]) st).

(** [setSearchResults(updater)]: React runs the updater on the current
    value when it renders, outside the [try] of the handler that queued it.
    Nothing reads [searchResults] in between, so the update is applied at
    once; an updater that throws is an uncaught exception of the render. *)
Definition setSearchResults_with (updater : value → option value) : M unit := λ st,
  match updater (searchResults st) with
  | Some v => (Returns (), with_searchResults v st)
  | None => (Returns (), with_uncaught (uncaught st ++ [TypeError]) st)
  end.

(** [prev.map(f)]: [None] stands for the [TypeError] of a [prev] that is not
    an array, or of an [f] that throws. *)
Definition array_map (f : value → option value) (prev : value) : option value :=
  match prev with
  | VArr l => VArr <$> mapM f l
  | _ => None
  end.

(** [fetch(url, options)] from the function suspended as [t]: the request is
    sent and [t] waits for it. *)
Definition fetch (t : task) : M unit :=
  modify (λ st, with_sent (sent st ++ [(now st, t)]) (with_inflight (inflight st ++ [t]) st)).

(** [await fetch(...)] and [await response.json()], once the request has
    settled as [o]. *)
Definition await_fetch (o : outcome) : M response :=
  match o with
  | Rejects => throw NetworkError
  | Resolves r => mret r
  end.

Definition json (r : response) : M value :=
  match body r with
  | None => throw SyntaxError
  | Some data => mret data
  end.

Definition fetchFriends : M unit := fetch (Load Friends []).
Definition fetchRecommendations : M unit := fetch (Load Recommendations []).
Definition fetchPendingRequests : M unit := fetch (Load PendingRequests []).

Definition fetchFriends_then (o : outcome) : M unit :=
  try_catch
    (response ← await_fetch o;
     data ← json response;
     setFriends data)
    (λ error, console_error "Error fetching friends:" error).

Definition fetchRecommendations_then (o : outcome) : M unit :=
  try_catch
    (response ← await_fetch o;
     data ← json response;
     setRecommendations data)
    (λ error, console_error "Error fetching recommendations:" error).

Definition fetchPendingRequests_then (o : outcome) : M unit :=
  try_catch
    (response ← await_fetch o;
     data ← json response;
     setPendingRequests data)
    (λ error, console_error "Error fetching pending requests:" error).

Definition loader_then (which : loader) : outcome → M unit :=
  match which with
  | Friends => fetchFriends_then
  | Recommendations => fetchRecommendations_then
  | PendingRequests => fetchPendingRequests_then
  end.

(** [fetchAllData]: [await] the loaders one after the other.  [awaits ls] is
    what is left of it when the loaders [ls] remain. *)
Definition awaits (ls : list loader) : M unit :=
  match ls with
  | [] => mret ()
  | which :: rest => fetch (Load which rest)
  end.

Definition fetchAllData : M unit := awaits [Friends; Recommendations; PendingRequests].

(** The function given to [debounce]: its call, and its body from the
    [await] on.  The body does not mention [term] again. *)
Definition search (term : string) : M unit := fetch (Search term).

Definition search_then (o : outcome) : M unit :=
  try_catch
    (response ← await_fetch o;
     data ← json response;
     setSearchResults data)
    (λ error, console_error "Error searching users:" error).

(** Modelled from the spec: [debounce] is lodash's and not under src/.  "(re)start
    a 300ms quiet-period timer; only after the timer elapses uninterrupted does
    the term advance"; "if the term changes again before the timer elapses, the
    previous timer is cancelled and does not fire".  A call of the debounced
    function replaces the pending call, argument and due time; [elapse] below
    runs the pending call when it falls due. *)
Definition wait : N := 300.

Definition debouncedSearch (term : string) : M unit :=
  modify (λ st, with_timer (Some ((now st + wait)%N, term)) st).

Definition handleSearchChange (term : string) : M unit :=
  setSearchTerm term;;
  if bool_decide (0 < String.length term)
  then debouncedSearch term
  else setSearchResults (VArr []).

Definition sendFriendRequest (userId : string) : M unit := fetch (SendFriendRequest userId).

(** The callback of [prevResults.map] in [sendFriendRequest]; [requested] is
    [data.status === 'requested']. *)
Definition patch_user (userId : string) (requested : bool) (user : value) : option value :=
  match get_prop user "_id" with
  | inl _ => None
  | inr id =>
      if strict_eq_str id userId
      then Some (VObj (<["requestStatus" := VStr (if requested then "requested" else "none")]>
                         (spread user)))
      else Some user
  end.

Definition sendFriendRequest_then (userId : string) (o : outcome) : M unit :=
  try_catch
    (response ← await_fetch o;
     data ← json response;
     message ← lift (get_prop data "message");
     status ← lift (get_prop data "status");
     let requested := strict_eq_str status "requested" in
     setNotifications (Notification message (if requested then "success" else "info"));;
     setSearchResults_with (array_map (patch_user userId requested));;
     fetchRecommendations)
    (λ error,
       console_error "Error managing friend request:" error;;
       setNotifications (Notification (VStr "Error managing friend request") "error")).

Definition acceptFriendRequest (userId : string) : M unit := fetch (AcceptFriendRequest userId).

Definition acceptFriendRequest_then (userId : string) (o : outcome) : M unit :=
  try_catch
    (_ ← await_fetch o;
     fetchPendingRequests;;
     fetchFriends)
    (λ error, console_error "Error accepting friend request:" error).

Definition unfriend (userId : string) : M unit := fetch (Unfriend userId).

Definition unfriend_then (userId : string) (o : outcome) : M unit :=
  try_catch
    (_ ← await_fetch o;
     fetchFriends)
    (λ error, console_error "Error unfriending user:" error).

(** ** The event loop *)

Inductive event : Type :=
  | Mount                                  (* the effect runs [fetchAllData] *)
  | Change (term : string)                 (* [onChange] of the search box *)
  | Elapse (d : N)                         (* [d] ms pass *)
  | ClickRequest (userId : string)         (* Add Friend / Cancel Request *)
  | ClickAccept (userId : string)
  | ClickUnfriend (userId : string)
  | Settle (i : nat) (o : outcome).        (* the [i]-th request in flight settles *)

(** The suspended function [t] goes on, its [fetch] having settled as [o]. *)
Definition resume (t : task) (o : outcome) : M unit :=
  match t with
  | Load which rest => loader_then which o;; awaits rest
  | Search term => search_then o
  | SendFriendRequest userId => sendFriendRequest_then userId o
  | AcceptFriendRequest userId => acceptFriendRequest_then userId o
  | Unfriend userId => unfriend_then userId o
  end.

Definition settle (i : nat) (o : outcome) : M unit := λ st,
  match inflight st !! i with
  | None => (Returns (), st)
  | Some t => resume t o (with_inflight (delete i (inflight st)) st)
  end.

(** [d] ms pass.  A pending debounced call that falls due runs at its due
    time: the function given to [debounce] is called with the last argument
    and sends its request. *)
Definition elapse (d : N) : M unit := λ st,
  let later := (now st + d)%N in
  match timer st with
  | Some (due, term) =>
      if (due <=? later)%N
      then (search term;; modify (with_now later))
             (with_now (N.max due (now st)) (with_timer None st))
      else (Returns (), with_now later st)
  | None => (Returns (), with_now later st)
  end.

Definition handle (ev : event) : M unit :=
  match ev with
  | Mount => fetchAllData
  | Change term => handleSearchChange term
  | Elapse d => elapse d
  | ClickRequest userId => sendFriendRequest userId
  | ClickAccept userId => acceptFriendRequest userId
  | ClickUnfriend userId => unfriend userId
  | Settle i o => settle i o
  end.

(** An exception that leaves a handler is uncaught.  Only the handlers run:
    the render that follows an event is not part of [step]. *)
Definition step (st : state) (ev : event) : state :=
  match handle ev st with
  | (Returns _, st') => st'
  | (Throws e, st') => with_uncaught (uncaught st' ++ [e]) st'
  end.

Definition run (st : state) (evs : list event) : state := foldl step st evs.

(** ** Sample data *)

Definition user (id name requestStatus : string) : value :=
  VObj {[ "_id" := VStr id; "username" := VStr name; "requestStatus" := VStr requestStatus ]}.

(** A 200 response with a JSON body. *)
Definition replies (data : value) : outcome := Resolves (Response 200 (Some data)).

(** The [_id]s of the entries of a collection. *)
Definition ids (coll : value) : list value :=
  match coll with
  | VArr l => omap (λ entry, match get_prop entry "_id" with inr id => Some id | inl _ => None end) l
  | _ => []
  end.

(** ** Vocabulary of the statements *)

(** Whether the suspended function reads the body: the two that only
    [await fetch(...)] do not. *)
Definition reads_body (t : task) : bool :=
  match t with
  | AcceptFriendRequest _ | Unfriend _ => false
  | _ => true
  end.

(** The remote call of [t] fails: no response, or a body that [t] reads and
    that is not JSON. *)
Definition fails (t : task) (o : outcome) : bool :=
  match o with
  | Rejects => true
  | Resolves r => match body r with None => reads_body t | Some _ => false end
  end.

(** What a failed call throws, and the line its function logs. *)
Definition thrown (o : outcome) : exn :=
  match o with
  | Rejects => NetworkError
  | Resolves _ => SyntaxError
  end.

Definition error_line (t : task) : string :=
  match t with
  | Load Friends _ => "Error fetching friends:"
  | Load Recommendations _ => "Error fetching recommendations:"
  | Load PendingRequests _ => "Error fetching pending requests:"
  | Search _ => "Error searching users:"
  | SendFriendRequest _ => "Error managing friend request:"
  | AcceptFriendRequest _ => "Error accepting friend request:"
  | Unfriend _ => "Error unfriending user:"
  end.

(** The state cells that hold collections. *)
Definition collections (st : state) : value * value * value * value :=
  (searchResults st, friends st, recommendations st, pendingRequests st).

(** Keystrokes: a first term, then each further term after a gap in ms. *)
Fixpoint typing (first : string) (more : list (N * string)) : list event :=
  match more with
  | [] => [Change first]
  | (gap, term) :: more' => Change first :: Elapse gap :: typing term more'
  end.

Fixpoint last_term (first : string) (more : list (N * string)) : string :=
  match more with
  | [] => first
  | (_, term) :: more' => last_term term more'
  end.

Fixpoint duration (more : list (N * string)) : N :=
  match more with
  | [] => 0
  | (gap, _) :: more' => gap + duration more'
  end.

(** Waiting: time passes in several stretches and nothing else happens. *)
Definition waiting (waits : list N) : list event := map Elapse waits.

Definition total (waits : list N) : N := foldr N.add 0%N waits.

(** [null] and [undefined], on which a property read throws. *)
Definition nullish (v : value) : bool :=
  match v with
  | VUndefined | VNull => true
  | _ => false
  end.

(** [data.k] where it does not throw. *)
Definition field (data : value) (k : string) : value :=
  match get_prop data k with
  | inr v => v
  | inl _ => VUndefined
  end.

(** What [patch_user] returns where it returns. *)
Definition patched (userId : string) (requested : bool) (entry : value) : value :=
  default entry (patch_user userId requested entry).

(** What a loader leaves in its collection, and on the console. *)
Definition loaded (o : outcome) (previous : value) : value :=
  match o with
  | Resolves (Response _ (Some data)) => data
  | _ => previous
  end.

Definition logged (which : loader) (o : outcome) : list (string * exn) :=
  if fails (Load which []) o then [(error_line (Load which []), thrown o)] else [].

(** ** What [Home] renders from the state *)

(** What [v && ...] tests. *)
Definition truthy (v : value) : bool :=
  match v with
  | VUndefined | VNull => false
  | VBool b => b
  | VNum n => negb (n =? 0)%Z
  | VStr s => negb (String.eqb s "")
  | VArr _ | VObj _ => true
  end.

(** The [className] of the notification banner. *)
Definition banner_class (n : notification) : string :=
  "mb-4 p-4 rounded " +:+
  (if String.eqb (type n) "success" then "bg-green-100 text-green-700"
   else if String.eqb (type n) "error" then "bg-red-100 text-red-700"
   else "bg-blue-100 text-blue-700").

(** What React accepts as a child of an element: an object that is not an
    array throws 'Objects are not valid as a React child'. *)
Fixpoint valid_child (v : value) : bool :=
  match v with
  | VObj _ => false
  | VArr l => forallb valid_child l
  | _ => true
  end.

(** What the render makes of
    [notifications.message && (<div className=...>{notifications.message}</div>)]:
    no banner for a falsy message, a banner of the class for a truthy
    message that is a valid child, an exception for one that is not. *)
Inductive built : Type :=
  | Built (className : string)
  | Nothing
  | RenderThrows.

Definition banner (n : notification) : built :=
  if truthy (message n)
  then if valid_child (message n) then Built (banner_class n) else RenderThrows
  else Nothing.

(** What a search result offers; the two buttons call
    [sendFriendRequest(user._id)]. *)
Inductive control : Type :=
  | AddFriend (id : value)
  | CancelRequest (id : value)
  | AlreadyFriends.

(** The controls in the card of one search result.  [key={user._id}] and
    [user.requestStatus] throw on an entry that is [null]. *)
Definition result_controls (user : value) : exn + list control :=
  match get_prop user "_id", get_prop user "requestStatus" with
  | inr id, inr requestStatus =>
      inr ((if strict_eq_str requestStatus "none" then [AddFriend id] else [])
           ++ (if strict_eq_str requestStatus "requested" then [CancelRequest id] else [])
           ++ (if strict_eq_str requestStatus "friend" then [AlreadyFriends] else []))
  | inl e, _ | _, inl e => inl e
  end.

(** ** More vocabulary *)

(** The collection a loader fills. *)
Definition collection_of (which : loader) (st : state) : value :=
  match which with
  | Friends => friends st
  | Recommendations => recommendations st
  | PendingRequests => pendingRequests st
  end.

(** The requests of keystrokes that are each left alone for the debounce
    wait: one per term, [wait] ms after its key; [t] is the time of the
    first key. *)
Fixpoint requests_of (t : N) (first : string) (more : list (N * string)) : list (N * task) :=
  ((t + wait)%N, Search first) ::
  match more with
  | [] => []
  | (gap, term) :: more' => requests_of (t + gap)%N term more'
  end.

(** ** Strings of [Register]

    A string is the sequence of its UTF-16 code units, here those below
    256. *)

(** The code units [trim] removes: TAB, LF, VT, FF, CR, space and the
    no-break space. *)
Definition is_white_space (c : Ascii.ascii) : bool :=
  let n := Ascii.N_of_ascii c in
  ((9 <=? n) && (n <=? 13) || (n =? 32) || (n =? 160))%N.

Fixpoint trim_start (s : string) : string :=
  match s with
  | String c s' => if is_white_space c then trim_start s' else s
  | EmptyString => EmptyString
  end.

Fixpoint trim_end (s : string) : string :=
  match s with
  | String c s' =>
      match trim_end s' with
      | EmptyString => if is_white_space c then EmptyString else String c EmptyString
      | t => String c t
      end
  | EmptyString => EmptyString
  end.

(** [s.trim()] *)
Definition trim (s : string) : string := trim_end (trim_start s).

(** The code unit of [','] *)
Definition comma : Ascii.ascii := Ascii.ascii_of_N 44.

(** [s.split(',')] *)
Fixpoint split_comma (s : string) : list string :=
  match s with
  | EmptyString => [EmptyString]
  | String c s' =>
      if Ascii.eqb c comma
      then EmptyString :: split_comma s'
      else match split_comma s' with
           | piece :: pieces => String c piece :: pieces
           | [] => [String c EmptyString]
           end
  end.

(** [pieces.join(',')] *)
Fixpoint join_comma (pieces : list string) : string :=
  match pieces with
  | [] => EmptyString
  | [piece] => piece
  | piece :: pieces' => piece +:+ String comma (join_comma pieces')
  end.

Fixpoint commas (s : string) : nat :=
  match s with
  | EmptyString => 0
  | String c s' => (if Ascii.eqb c comma then 1 else 0) + commas s'
  end.

Fixpoint all_white_space (s : string) : bool :=
  match s with
  | EmptyString => true
  | String c s' => is_white_space c && all_white_space s'
  end.

(** First and last code unit. *)
Definition first_unit (s : string) : option Ascii.ascii :=
  match s with
  | String c _ => Some c
  | EmptyString => None
  end.

Fixpoint last_unit (s : string) : option Ascii.ascii :=
  match s with
  | EmptyString => None
  | String c EmptyString => Some c
  | String _ s' => last_unit s'
  end.

(** ** The forms: [Login.js] and [Register.js] *)

Module Form.

(** The calls a form makes outside itself: on the submit event, to the auth
    context and to the router.  [login] and [navigate] are not under src/;
    their calls are recorded, and they are taken to return. *)
Inductive call : Type :=
  | PreventDefault
  | CallLogin (token userId : value)
  | Navigate (path : string).

(** Handler bodies over a state [S], with exceptions. *)
Definition script (S A : Type) : Type := S → completion A * S.

#[export] Instance script_ret {S} : MRet (script S) := λ A a st, (Returns a, st).
#[export] Instance script_bind {S} : MBind (script S) := λ A B f m st,
  match m st with
  | (Returns a, st') => f a st'
  | (Throws e, st') => (Throws e, st')
  end.

Definition raise {S A} (e : exn) : script S A := λ st, (Throws e, st).

(** [try { body } catch (error) { handler }] *)
Definition attempt {S} (body : script S unit) (handler : exn → script S unit) : script S unit :=
  λ st,
  match body st with
  | (Throws e, st') => handler e st'
  | r => r
  end.

Definition update {S} (f : S → S) : script S unit := λ st, (Returns (), f st).

Definition expect {S A} (r : exn + A) : script S A :=
  match r with
  | inl e => raise e
  | inr a => mret a
  end.

(** [await fetch(...)] and [await response.json()], the request having
    settled as [o]. *)
Definition awaited {S} (o : outcome) : script S response :=
  match o with
  | Rejects => raise NetworkError
  | Resolves r => mret r
  end.

Definition parsed {S} (r : response) : script S value :=
  match body r with
  | None => raise SyntaxError
  | Some data => mret data
  end.

End Form.

Module Login.
Import Form.

Record state : Type := State {
  username : string;
  password : string;
  error : value;
  inflight : nat;          (* requests sent and not yet settled *)
  posted : list value;     (* the bodies given to [JSON.stringify], oldest first *)
  calls : list call
}.

Definition initial : state := State "" "" (VStr "") 0 [] [].

Definition setUsername (x : string) (st : state) : state :=
  State x (password st) (error st) (inflight st) (posted st) (calls st).
Definition setPassword (x : string) (st : state) : state :=
  State (username st) x (error st) (inflight st) (posted st) (calls st).
Definition setError (x : value) : script state unit :=
  update (λ st, State (username st) (password st) x (inflight st) (posted st) (calls st)).
Definition called (c : call) : script state unit :=
  update (λ st, State (username st) (password st) (error st) (inflight st) (posted st)
                  (calls st ++ [c])).
Definition post (payload : value) : script state unit :=
  update (λ st, State (username st) (password st) (error st) (S (inflight st))
                  (posted st ++ [payload]) (calls st)).
Definition settled : script state unit :=
  update (λ st, State (username st) (password st) (error st) (pred (inflight st))
                  (posted st) (calls st)).

(** [handleSubmit] up to its [await fetch(...)]. *)
Definition handleSubmit : script state unit := λ st,
  (called PreventDefault;;
   post (VObj {[ "username" := VStr (username st); "password" := VStr (password st) ]})) st.

(** [handleSubmit] from the [await] on. *)
Definition handleSubmit_then (o : outcome) : script state unit :=
  attempt
    (response ← awaited o;
     data ← parsed response;
     if ok response
     then token ← expect (get_prop data "token");
          userId ← expect (get_prop data "userId");
          called (CallLogin token userId);;
          called (Navigate "/")
     else message ← expect (get_prop data "message");
          setError message)
    (λ error, setError (VStr "Error logging in")).

Inductive event : Type :=
  | TypeUsername (x : string)
  | TypePassword (x : string)
  | Submit
  | Settle (o : outcome).     (* the oldest request in flight settles *)

Definition handle (ev : event) : script state unit :=
  match ev with
  | TypeUsername x => update (setUsername x)
  | TypePassword x => update (setPassword x)
  | Submit => handleSubmit
  | Settle o => λ st,
      match inflight st with
      | 0 => (Returns (), st)
      | S _ => (settled;; handleSubmit_then o) st
      end
  end.

(** The state after an event. *)
Definition step (st : state) (ev : event) : state := (handle ev st).2.

Definition run (st : state) (evs : list event) : state := foldl step st evs.

(** [error && <p>...</p>]: whether the error line is built. *)
Definition error_shown (st : state) : bool := truthy (error st).

End Login.

Module Register.
Import Form.

Record state : Type := State {
  username : string;
  password : string;
  interests : string;
  error : value;
  inflight : nat;
  posted : list value;
  calls : list call
}.

Definition initial : state := State "" "" "" (VStr "") 0 [] [].

Definition setUsername (x : string) (st : state) : state :=
  State x (password st) (interests st) (error st) (inflight st) (posted st) (calls st).
Definition setPassword (x : string) (st : state) : state :=
  State (username st) x (interests st) (error st) (inflight st) (posted st) (calls st).
Definition setInterests (x : string) (st : state) : state :=
  State (username st) (password st) x (error st) (inflight st) (posted st) (calls st).
Definition setError (x : value) : script state unit :=
  update (λ st, State (username st) (password st) (interests st) x (inflight st) (posted st)
                  (calls st)).
Definition called (c : call) : script state unit :=
  update (λ st, State (username st) (password st) (interests st) (error st) (inflight st)
                  (posted st) (calls st ++ [c])).
Definition post (payload : value) : script state unit :=
  update (λ st, State (username st) (password st) (interests st) (error st) (S (inflight st))
                  (posted st ++ [payload]) (calls st)).
Definition settled : script state unit :=
  update (λ st, State (username st) (password st) (interests st) (error st)
                  (pred (inflight st)) (posted st) (calls st)).

(** [interests.split(',').map(i => i.trim())] *)
Definition interests_of (typed : string) : list string := trim <$> split_comma typed.

(** [handleSubmit] up to its [await fetch(...)]. *)
Definition handleSubmit : script state unit := λ st,
  (called PreventDefault;;
   post (VObj {[ "username" := VStr (username st);
                 "password" := VStr (password st);
                 "interests" := VArr (VStr <$> interests_of (interests st)) ]})) st.

(** [handleSubmit] from the [await] on. *)
Definition handleSubmit_then (o : outcome) : script state unit :=
  attempt
    (response ← awaited o;
     data ← parsed response;
     if ok response
     then token ← expect (get_prop data "token");
          userId ← expect (get_prop data "userId");
          called (CallLogin token userId);;
          called (Navigate "/")
     else message ← expect (get_prop data "message");
          setError message)
    (λ error, setError (VStr "Error registering user")).

Inductive event : Type :=
  | TypeUsername (x : string)
  | TypePassword (x : string)
  | TypeInterests (x : string)
  | Submit
  | Settle (o : outcome).

Definition handle (ev : event) : script state unit :=
  match ev with
  | TypeUsername x => update (setUsername x)
  | TypePassword x => update (setPassword x)
  | TypeInterests x => update (setInterests x)
  | Submit => handleSubmit
  | Settle o => λ st,
      match inflight st with
      | 0 => (Returns (), st)
      | S _ => (settled;; handleSubmit_then o) st
      end
  end.

Definition step (st : state) (ev : event) : state := (handle ev st).2.

Definition run (st : state) (evs : list event) : state := foldl step st evs.

Definition error_shown (st : state) : bool := truthy (error st).

End Register.

(** The body of a response that a form takes as success: the response is
    [ok], its body is JSON and not [null]. *)
Definition accepted (o : outcome) : option value :=
  match o with
  | Rejects => None
  | Resolves r =>
      if ok r
      then match body r with
           | Some data => if nullish data then None else Some data
           | None => None
           end
      else None
  end.

(** The error a form is left with when the submit is not accepted: the
    [message] of the body when there is a body to read it from, the form's
    own text otherwise. *)
Definition reported (own : string) (o : outcome) : value :=
  match o with
  | Rejects => VStr own
  | Resolves r =>
      match body r with
      | Some data => if nullish data then VStr own else field data "message"
      | None => VStr own
      end
  end.

(** * Proofs *)

(** ** Running handlers *)

Ltac exec_body :=
  unfold resume, loader_then, awaits,
    fetchAllData, fetchFriends_then, fetchRecommendations_then,
    fetchPendingRequests_then, search, search_then, sendFriendRequest_then,
    acceptFriendRequest_then, unfriend_then, sendFriendRequest,
    acceptFriendRequest, unfriend, fetchFriends, fetchRecommendations,
    fetchPendingRequests, handleSearchChange, debouncedSearch, wait, elapse,
    try_catch, await_fetch, json, fetch, console_error, lift, throw, modify,
    setSearchTerm, setSearchResults, setFriends, setRecommendations,
    setPendingRequests, setNotifications, mbind, mret, M_bind, M_ret;
  cbn.

Ltac exec := unfold run, step, handle, settle; exec_body.

Example try_catch_catches :
  try_catch (throw TypeError) (λ _, modify (with_searchTerm "caught")) initial
  = (Returns (), with_searchTerm "caught" initial).
Proof. reflexivity. Qed.

Example mount_sends_friends :
  inflight (run initial [Mount]) = [Load Friends [Recommendations; PendingRequests]].
Proof. reflexivity. Qed.

Example typing_abc :
  typing "a" [(100%N, "ab"); (50%N, "abc")]
  = [Change "a"; Elapse 100; Change "ab"; Elapse 50; Change "abc"].
Proof. reflexivity. Qed.

Lemma settle_lookup st i t o :
  inflight st !! i = Some t →
  handle (Settle i o) st = resume t o (with_inflight (delete i (inflight st)) st).
Proof. intros H. unfold handle, settle. by rewrite H. Qed.

(** * Search *)

(** C1, as stated, fails: "x" is requested at 300 ms and "y" at 600 ms; the
    response for "y" arrives first and is displayed, then the response for
    "x" arrives and replaces it. *)
Lemma stale_search_response_displayed :
  let xs := VArr [user "u1" "xavier" "none"] in
  let ys := VArr [user "u2" "yann" "none"] in
  let issued := run initial [Change "x"; Elapse 300; Change "y"; Elapse 300] in
  let y_resolved := step issued (Settle 1 (replies ys)) in
  let x_resolved := step y_resolved (Settle 0 (replies xs)) in
  sent issued = [(300%N, Search "x"); (600%N, Search "y")]
  ∧ inflight issued = [Search "x"; Search "y"]
  ∧ searchResults y_resolved = ys
  ∧ searchResults x_resolved = xs
  ∧ ids (searchResults x_resolved) ≠ ids ys.
Proof. vm_compute. repeat split; discriminate. Qed.

(** C1, amended: of two search requests in flight, the one whose response
    arrives last decides what is displayed, whichever was sent first. *)
Theorem last_search_response_wins st i j x y sx sy xs ys :
  inflight st !! i = Some (Search x) →
  inflight st !! j = Some (Search y) →
  i < j →
  searchResults (run st [Settle j (Resolves (Response sy (Some ys)));
                         Settle i (Resolves (Response sx (Some xs)))]) = xs
  ∧ searchResults (run st [Settle i (Resolves (Response sx (Some xs)));
                           Settle (pred j) (Resolves (Response sy (Some ys)))]) = ys.
Proof.
  intros Hi Hj Hlt. split.
  - unfold run; cbn [foldl]. unfold step at 2.
    rewrite (settle_lookup _ _ _ _ Hj). exec.
    rewrite list_lookup_delete_lt, Hi by done. reflexivity.
  - unfold run; cbn [foldl]. unfold step at 2.
    rewrite (settle_lookup _ _ _ _ Hi). exec.
    rewrite list_lookup_delete_ge by lia.
    replace (S (pred j)) with j by lia. rewrite Hj. reflexivity.
Qed.

Lemma last_search_response_wins_witness :
  let st := run initial [Change "x"; Elapse 300; Change "y"; Elapse 300] in
  searchResults (run st [Settle 1 (replies (VArr [VStr "y1"])); Settle 0 (replies (VArr [VStr "x1"]))])
  = VArr [VStr "x1"].
Proof.
  intros st.
  apply (last_search_response_wins st 0 1 "x" "y" 200%N 200%N (VArr [VStr "x1"]) (VArr [VStr "y1"]));
    [reflexivity | reflexivity | lia].
Defined.

(** C4, as stated, fails: clearing the box does not cancel the pending
    debounced call.  "a" is typed at 0 ms and deleted at 100 ms; the results
    are cleared, but the call scheduled for "a" still runs at 300 ms and its
    response fills the results while the box is empty. *)
Lemma cleared_results_repopulated :
  let hits := VArr [user "u1" "alice" "none"] in
  let cleared := run initial [Change "a"; Elapse 100; Change ""] in
  let later := run cleared [Elapse 200; Settle 0 (replies hits)] in
  searchResults cleared = VArr []
  ∧ timer cleared = Some (300%N, "a")
  ∧ sent later = [(300%N, Search "a")]
  ∧ searchTerm later = ""
  ∧ searchResults later = hits
  ∧ ids (searchResults later) ≠ [].
Proof. vm_compute. repeat split; discriminate. Qed.

(** C4, amended: an input change to the empty string clears the displayed
    results within the same handler run, with no debounce wait; the pending
    debounced call and the requests in flight are left as they are. *)
Theorem empty_term_clears_synchronously st :
  let st' := step st (Change "") in
  searchTerm st' = ""
  ∧ searchResults st' = VArr []
  ∧ now st' = now st
  ∧ sent st' = sent st
  ∧ timer st' = timer st
  ∧ inflight st' = inflight st.
Proof. exec. done. Qed.

(** * Failures of remote calls *)

(** C2, as stated, fails: a rejected accept call is caught and logged, and
    the notification stays as it was; no error is shown. *)
Lemma accept_failure_not_notified :
  let st := run initial [ClickAccept "u1"; Settle 0 Rejects] in
  console st = [("Error accepting friend request:", NetworkError)]
  ∧ uncaught st = []
  ∧ notifications st = notifications initial
  ∧ type (notifications st) ≠ "error".
Proof. vm_compute. repeat split; discriminate. Qed.

(** C2, amended: every failure of a remote call is caught in the function
    that made the call and logged with [console.error]; nothing is thrown
    out of the handler; the failure becomes an error notification in
    [sendFriendRequest] only, the loaders, the search, accept and unfriend
    leave the notification as it was. *)
Theorem failure_caught_and_logged st i t o :
  inflight st !! i = Some t →
  fails t o = true →
  ∃ st', handle (Settle i o) st = (Returns (), st')
    ∧ uncaught st' = uncaught st
    ∧ console st' = console st ++ [(error_line t, thrown o)]
    ∧ notifications st' =
        match t with
        | SendFriendRequest _ => Notification (VStr "Error managing friend request") "error"
        | _ => notifications st
        end.
Proof.
  intros Hi Hf. rewrite (settle_lookup _ _ _ _ Hi).
  destruct o as [|[http [data|]]]; try discriminate Hf;
    destruct t as [[] [|next rest]| | | |]; try discriminate Hf;
    eexists; (split; [exec; reflexivity|]); done.
Qed.

Lemma failure_caught_and_logged_witness :
  ∃ st', handle (Settle 0 Rejects) (run initial [ClickUnfriend "u1"]) = (Returns (), st')
    ∧ uncaught st' = []
    ∧ console st' = [("Error unfriending user:", NetworkError)]
    ∧ notifications st' = Notification (VStr "") "".
Proof.
  apply (failure_caught_and_logged (run initial [ClickUnfriend "u1"]) 0 (Unfriend "u1") Rejects);
    reflexivity.
Defined.

(** No handler lets an exception out, however its request settles. *)
Lemma handle_returns ev st : ∃ st', handle ev st = (Returns (), st').
Proof.
  destruct ev as [|term|d|userId|userId|userId|i o]; try (eexists; reflexivity).
  - exec. destruct (bool_decide _); eexists; reflexivity.
  - exec. destruct (timer st) as [[due term]|]; [|eexists; reflexivity].
    destruct (due <=? now st + d)%N; eexists; reflexivity.
  - unfold handle, settle. destruct (inflight st !! i) as [t|]; [|eexists; reflexivity].
    destruct t as [[] [|next rest]| | | |], o as [|[http [data|]]];
      try (eexists; reflexivity).
    exec_body. unfold setSearchResults_with.
    destruct data; cbn; try (eexists; reflexivity);
      destruct (array_map _ _); eexists; reflexivity.
Qed.

(** A remote call that fails leaves the four collections as they were. *)
Lemma failed_call_keeps_collections st i t o :
  inflight st !! i = Some t →
  fails t o = true →
  collections (step st (Settle i o)) = collections st.
Proof.
  intros Hi Hf. unfold step. rewrite (settle_lookup _ _ _ _ Hi).
  destruct o as [|[http [data|]]]; try discriminate Hf;
    destruct t as [[] [|next rest]| | | |]; try discriminate Hf; reflexivity.
Qed.

(** Sending a request changes no collection: nothing is applied before the
    response. *)
Lemma call_keeps_collections st ev :
  match ev with Mount | ClickRequest _ | ClickAccept _ | ClickUnfriend _ => True | _ => False end →
  collections (step st ev) = collections st.
Proof. destruct ev; intros []; reflexivity. Qed.

(** C3 at its failing inputs: no function of [Home] looks at [response.ok]
    or at the status.  A 500 answer to the toggle call, with a JSON error
    body, runs the success path: the entry is rewritten to 'none' and an
    info notification is shown.  A 401 answer to the friends request is
    stored as the friends collection. *)
Lemma server_error_treated_as_success :
  let r500 := Response 500 (Some (VObj {[ "message" := VStr "Server error" ]})) in
  let r401 := Response 401 (Some (VObj {[ "message" := VStr "Unauthorized" ]})) in
  let st := with_searchResults (VArr [user "u1" "alice" "requested"]) initial in
  let toggled := run st [ClickRequest "u1"; Settle 0 (Resolves r500)] in
  let loaded := run initial [Mount; Settle 0 (Resolves r401)] in
  ok r500 = false ∧ ok r401 = false
  ∧ searchResults toggled = VArr [user "u1" "alice" "none"]
  ∧ notifications toggled = Notification (VStr "Server error") "info"
  ∧ console toggled = []
  ∧ friends loaded = VObj {[ "message" := VStr "Unauthorized" ]}
  ∧ console loaded = [].
Proof. vm_compute. repeat split. Qed.

(** * Debounce *)

Lemma change_schedules st term :
  term ≠ "" →
  step st (Change term) =
  with_timer (Some ((now st + 300)%N, term)) (with_searchTerm term st).
Proof. intros H. destruct term; [done|]. reflexivity. Qed.

Lemma elapse_before_due st d due term :
  timer st = Some (due, term) →
  (now st + d < due)%N →
  step st (Elapse d) = with_now (now st + d)%N st.
Proof.
  intros Ht Hlt. unfold step, handle, elapse. rewrite Ht.
  destruct (N.leb_spec due (now st + d)); [lia|]. reflexivity.
Qed.

Lemma elapse_past_due st d due term :
  timer st = Some (due, term) →
  (now st ≤ due ≤ now st + d)%N →
  step st (Elapse d) =
  with_now (now st + d)%N
    (with_sent (sent st ++ [(due, Search term)])
       (with_inflight (inflight st ++ [Search term]) (with_timer None st))).
Proof.
  intros Ht [Hlo Hhi]. unfold step, handle, elapse. rewrite Ht.
  destruct (N.leb_spec due (now st + d)); [|lia].
  exec. by rewrite N.max_l.
Qed.

Lemma typing_schedules_last first more : ∀ st,
  first ≠ "" →
  Forall (λ k, (k.1 < 300)%N ∧ k.2 ≠ "") more →
  let st' := run st (typing first more) in
  sent st' = sent st
  ∧ inflight st' = inflight st
  ∧ now st' = (now st + duration more)%N
  ∧ timer st' = Some ((now st + duration more + 300)%N, last_term first more).
Proof.
  revert first. induction more as [|[gap term] more IH]; intros first st Hfirst Hmore.
  - cbn. rewrite change_schedules by done. cbn. rewrite N.add_0_r. done.
  - inversion Hmore as [|? ? [Hgap Hterm] Hmore']; subst. cbn in Hgap, Hterm.
    cbn [typing run foldl]. rewrite change_schedules by done.
    erewrite elapse_before_due; [|reflexivity|cbn; lia].
    specialize (IH term (with_now (now st + gap)%N
      (with_timer (Some ((now st + 300)%N, first)) (with_searchTerm first st))) Hterm Hmore').
    cbn in IH. destruct IH as (Hs & Hf & Hn & Ht).
    unfold run in *. cbn [duration last_term].
    change (now (with_timer (Some ((now st + 300)%N, first)) (with_searchTerm first st)))
      with (now st).
    rewrite Hs, Hf, Hn, Ht. repeat split; [lia|]. do 2 f_equal. lia.
Qed.

Lemma waiting_idle waits : ∀ st,
  timer st = None →
  sent (run st (waiting waits)) = sent st ∧ timer (run st (waiting waits)) = None.
Proof.
  induction waits as [|d waits IH]; intros st Ht; [done|].
  cbn [waiting map run foldl].
  replace (step st (Elapse d)) with (with_now (now st + d)%N st)
    by (unfold step, handle, elapse; by rewrite Ht).
  apply (IH (with_now (now st + d)%N st) Ht).
Qed.

Lemma waiting_fires_once waits : ∀ st due term,
  timer st = Some (due, term) →
  (now st < due)%N →
  sent (run st (waiting waits)) =
    (if (due <=? now st + total waits)%N then sent st ++ [(due, Search term)] else sent st)
  ∧ timer (run st (waiting waits)) =
    (if (due <=? now st + total waits)%N then None else Some (due, term)).
Proof.
  induction waits as [|d waits IH]; intros st due term Ht Hlt.
  - cbn. destruct (N.leb_spec due (now st + 0)); [lia|done].
  - cbn [waiting map run foldl total foldr].
    destruct (N.leb_spec due (now st + d)) as [Hdue|Hdue].
    + erewrite elapse_past_due by (done || lia).
      destruct (N.leb_spec due (now st + (d + foldr N.add 0%N waits))); [|lia].
      apply (waiting_idle waits
        (with_now (now st + d)%N
           (with_sent (sent st ++ [(due, Search term)])
              (with_inflight (inflight st ++ [Search term]) (with_timer None st))))).
      reflexivity.
    + erewrite elapse_before_due by done.
      destruct (IH (with_now (now st + d)%N st) due term Ht Hdue) as [Hs Hti].
      cbn in Hs, Hti. unfold waiting, run, total in *. rewrite Hs, Hti.
      replace (now st + (d + foldr N.add 0%N waits))%N
        with (now st + d + foldr N.add 0%N waits)%N by lia.
      done.
Qed.

(** C5: keystrokes with non-empty terms, each less than 300 ms after the
    one before, then any waiting.  While the keys are typed nothing is
    sent; in the wait nothing is sent before 300 ms have passed since the
    last key; once they have, exactly one request has been sent, for the
    last term, 300 ms after the last key. *)
Theorem debounce_sends_last_term_once st first more waits :
  first ≠ "" →
  Forall (λ k, (k.1 < 300)%N ∧ k.2 ≠ "") more →
  let last_key := (now st + duration more)%N in
  sent (run st (typing first more)) = sent st
  ∧ sent (run st (typing first more ++ waiting waits)) =
      if (300 <=? total waits)%N
      then sent st ++ [((last_key + 300)%N, Search (last_term first more))]
      else sent st.
Proof.
  intros Hfirst Hmore last_key.
  destruct (typing_schedules_last first more st Hfirst Hmore) as (Hs & _ & Hn & Ht).
  split; [done|].
  unfold run in *. rewrite foldl_app.
  destruct (waiting_fires_once waits _ _ _ Ht) as [Hsent _]; [rewrite Hn; lia|].
  unfold run in Hsent. rewrite Hsent, Hs, Hn. unfold last_key.
  destruct (N.leb_spec 300 (total waits));
    destruct (N.leb_spec (now st + duration more + 300) (now st + duration more + total waits));
    done || lia.
Qed.

Lemma debounce_sends_last_term_once_witness :
  sent (run initial (typing "a" [(100%N, "ab"); (50%N, "abc")])) = []
  ∧ sent (run initial (typing "a" [(100%N, "ab"); (50%N, "abc")] ++ waiting [200%N; 99%N])) = []
  ∧ sent (run initial (typing "a" [(100%N, "ab"); (50%N, "abc")] ++ waiting [200%N; 100%N; 500%N]))
    = [(450%N, Search "abc")].
Proof.
  assert (Hmore : Forall (λ k : N * string, (k.1 < 300)%N ∧ k.2 ≠ "")
                    [(100%N, "ab"); (50%N, "abc")])
    by (repeat constructor; cbn; (lia || discriminate)).
  assert (Hfirst : "a" ≠ "") by discriminate.
  split; [|split].
  - exact (proj1 (debounce_sends_last_term_once initial "a" _ [] Hfirst Hmore)).
  - exact (proj2 (debounce_sends_last_term_once initial "a" _ [200%N; 99%N] Hfirst Hmore)).
  - exact (proj2 (debounce_sends_last_term_once initial "a" _ [200%N; 100%N; 500%N] Hfirst Hmore)).
Defined.

(** * The friend-request toggle *)

Lemma get_prop_field data k : nullish data = false → get_prop data k = inr (field data k).
Proof. by destruct data. Qed.

Lemma patch_user_patched userId requested entry :
  nullish entry = false →
  patch_user userId requested entry = Some (patched userId requested entry).
Proof.
  intros H. unfold patched, patch_user. rewrite (get_prop_field _ _ H).
  by destruct (strict_eq_str _ _).
Qed.

Lemma mapM_patch_user userId requested l :
  Forall (λ entry, nullish entry = false) l →
  mapM (patch_user userId requested) l = Some (patched userId requested <$> l).
Proof.
  induction 1 as [|entry l H _ IH]; [done|].
  cbn. rewrite (patch_user_patched _ _ _ H). cbn. by rewrite IH.
Qed.

Lemma strict_eq_str_true v s : strict_eq_str v s = true ↔ v = VStr s.
Proof.
  destruct v; cbn; try (split; [discriminate|congruence]).
  rewrite bool_decide_eq_true. split; congruence.
Qed.

(** An entry whose [_id] is [userId]: its [requestStatus] is rewritten and
    nothing else. *)
Lemma patched_match userId requested entry :
  get_prop entry "_id" = inr (VStr userId) →
  patched userId requested entry =
  VObj (<["requestStatus" := VStr (if requested then "requested" else "none")]> (spread entry)).
Proof.
  intros H. unfold patched, patch_user. rewrite H. cbn.
  by rewrite bool_decide_eq_true_2.
Qed.

(** Any other entry is returned as it is. *)
Lemma patched_other userId requested entry :
  get_prop entry "_id" ≠ inr (VStr userId) →
  patched userId requested entry = entry.
Proof.
  intros H. unfold patched, patch_user.
  destruct (get_prop entry "_id") as [e|id] eqn:Hid; [done|].
  destruct (strict_eq_str id userId) eqn:Heq; [|done].
  apply strict_eq_str_true in Heq. congruence.
Qed.

(** The toggle call for [userId] is in flight and resolves with a body
    [data] that is not [null], while the displayed results are an array
    without [null]s. *)
Section ToggleResolves.

Context (st : state) (i : nat) (userId : string) (http : N) (data : value) (l : list value).
Hypothesis in_flight : inflight st !! i = Some (SendFriendRequest userId).
Hypothesis body_not_null : nullish data = false.
Hypothesis results_array : searchResults st = VArr l.
Hypothesis entries_not_null : Forall (λ entry, nullish entry = false) l.

Lemma sendFriendRequest_resolved :
  let requested := strict_eq_str (field data "status") "requested" in
  step st (Settle i (Resolves (Response http (Some data)))) =
  with_sent (sent st ++ [(now st, Load Recommendations [])])
    (with_inflight (delete i (inflight st) ++ [Load Recommendations []])
       (with_searchResults (VArr (patched userId requested <$> l))
          (with_notifications
             (Notification (field data "message") (if requested then "success" else "info"))
             st))).
Proof.
  intros requested. unfold step. rewrite (settle_lookup _ _ _ _ in_flight).
  unfold resume, sendFriendRequest_then, try_catch, await_fetch, json, lift,
    mbind, mret, M_bind, M_ret. cbn.
  rewrite !(get_prop_field _ _ body_not_null). cbn.
  unfold setSearchResults_with. cbn. rewrite results_array. cbn.
  rewrite (mapM_patch_user _ _ _ entries_not_null). reflexivity.
Qed.


(** C10: on the success path of the toggle call for [userId], a search
    result with another [_id] is left as it is, a result with that [_id]
    keeps every property but [requestStatus], and the friends and the
    pending requests are not touched. *)
Theorem sendFriendRequest_success_frame :
  let st' := step st (Settle i (Resolves (Response http (Some data)))) in
  friends st' = friends st
  ∧ pendingRequests st' = pendingRequests st
  ∧ ∃ l', searchResults st' = VArr l' ∧ length l' = length l
      ∧ ∀ k entry, l !! k = Some entry →
          (get_prop entry "_id" ≠ inr (VStr userId) → l' !! k = Some entry)
          ∧ (get_prop entry "_id" = inr (VStr userId) →
             ∃ o', l' !! k = Some (VObj o')
               ∧ ∀ p, p ≠ "requestStatus" → o' !! p = spread entry !! p).
Proof.
  intros st'. unfold st'. rewrite sendFriendRequest_resolved. cbn.
  do 2 (split; [reflexivity|]).
  eexists; split; [reflexivity|]. split; [by rewrite length_fmap|].
  intros k entry Hk. rewrite list_lookup_fmap, Hk. cbn. split; intros Hid.
  - by rewrite (patched_other _ _ _ Hid).
  - rewrite (patched_match _ _ _ Hid). eexists; split; [reflexivity|].
    intros p Hp. by rewrite lookup_insert_ne.
Qed.

End ToggleResolves.



Lemma sendFriendRequest_success_frame_witness :
  let st := run (with_friends (VArr [user "u3" "carol" "friend"])
                   (with_searchResults (VArr [user "u1" "alice" "none"; user "u2" "bob" "none"]) initial))
              [ClickRequest "u2"] in
  let data := VObj {[ "status" := VStr "requested"; "message" := VStr "Friend request sent" ]} in
  let st' := step st (Settle 0 (replies data)) in
  friends st' = VArr [user "u3" "carol" "friend"]
  ∧ pendingRequests st' = VArr []
  ∧ ids (searchResults st') = [VStr "u1"; VStr "u2"].
Proof.
  intros st data st'.
  destruct (sendFriendRequest_success_frame st 0 "u2" 200%N data
              [user "u1" "alice" "none"; user "u2" "bob" "none"])
    as (Hf & Hp & _); [reflexivity | reflexivity | reflexivity | by repeat constructor |].
  split; [exact Hf|]. split; [exact Hp | reflexivity].
Defined.

Lemma patched_not_nullish userId requested entry :
  nullish entry = false → nullish (patched userId requested entry) = false.
Proof.
  intros H. unfold patched, patch_user.
  destruct entry; try done; cbn; by destruct (strict_eq_str _ _).
Qed.

(** An entry in state none comes back to what it was when it is set to
    'requested' and then to 'none'. *)
Lemma patched_twice userId entry :
  nullish entry = false →
  (get_prop entry "_id" = inr (VStr userId) →
   get_prop entry "requestStatus" = inr (VStr "none")) →
  patched userId false (patched userId true entry) = entry.
Proof.
  intros Hn Hnone.
  destruct (get_prop entry "_id") as [e|id] eqn:Hid; [by destruct entry|].
  destruct (strict_eq_str id userId) eqn:Heq.
  - apply strict_eq_str_true in Heq as ->. specialize (Hnone eq_refl).
    destruct entry as [| | | | | |o]; try discriminate Hid. cbn in Hid, Hnone.
    injection Hid as Hid. injection Hnone as Hnone.
    rewrite (patched_match _ true (VObj o)) by (cbn; congruence).
    rewrite patched_match by (cbn; rewrite lookup_insert_ne by done; congruence).
    cbn. rewrite insert_insert_eq. f_equal. apply insert_id.
    destruct (o !! "requestStatus") as [v|]; cbn in Hnone; congruence.
  - assert (get_prop entry "_id" ≠ inr (VStr userId)) as Hne.
    { rewrite Hid. intros [= ->]. cbn in Heq. by rewrite bool_decide_eq_true_2 in Heq. }
    rewrite (patched_other _ true entry Hne). exact (patched_other _ false entry Hne).
Qed.

(** C9: a user shown in state none, two toggle calls in sequence, both
    resolving: the first reply reports 'requested', the second reports
    another status (a cancellation).  The user's entries read 'requested'
    after the first call, and after the second the displayed results are
    what they were. *)
Theorem request_then_cancel_restores st userId l http1 http2 created cancelled :
  searchResults st = VArr l →
  Forall (λ entry, nullish entry = false) l →
  (∀ entry, entry ∈ l → get_prop entry "_id" = inr (VStr userId) →
            get_prop entry "requestStatus" = inr (VStr "none")) →
  get_prop created "status" = inr (VStr "requested") →
  nullish cancelled = false →
  strict_eq_str (field cancelled "status") "requested" = false →
  let n := length (inflight st) in
  let st1 := run st [ClickRequest userId; Settle n (Resolves (Response http1 (Some created)))] in
  let st2 := run st1 [ClickRequest userId; Settle (S n) (Resolves (Response http2 (Some cancelled)))] in
  (∃ l1, searchResults st1 = VArr l1
     ∧ ∀ k entry, l !! k = Some entry → get_prop entry "_id" = inr (VStr userId) →
         ∃ entry1, l1 !! k = Some entry1
           ∧ get_prop entry1 "requestStatus" = inr (VStr "requested"))
  ∧ searchResults st2 = searchResults st.
Proof.
  intros Hres Hl Hnone Hcreated Hcancelled Hstatus n st1 st2. subst n.
  assert (Hdata : nullish created = false) by (by destruct created).
  assert (Hreq : strict_eq_str (field created "status") "requested" = true).
  { unfold field. rewrite Hcreated. cbn. by rewrite bool_decide_eq_true_2. }
  assert (Hst1 : st1 =
    with_sent ((sent st ++ [(now st, SendFriendRequest userId)]) ++ [(now st, Load Recommendations [])])
      (with_inflight (inflight st ++ [Load Recommendations []])
         (with_searchResults (VArr (patched userId true <$> l))
            (with_notifications (Notification (field created "message") "success") st)))).
  { unfold st1, run. cbn [foldl].
    erewrite sendFriendRequest_resolved; [|cbn; apply list_lookup_middle; done|done|exact Hres|done].
    rewrite Hreq. cbn. by rewrite delete_middle, app_nil_r. }
  split.
  - rewrite Hst1. cbn. eexists; split; [reflexivity|].
    intros k entry Hk Hid. eexists. rewrite list_lookup_fmap, Hk. split; [reflexivity|].
    rewrite (patched_match _ _ _ Hid). cbn. by rewrite lookup_insert_eq.
  - unfold st2, run. cbn [foldl]. rewrite Hst1.
    erewrite sendFriendRequest_resolved;
      [| cbn; apply list_lookup_middle; rewrite length_app; cbn; lia
       | done | reflexivity | ].
    + rewrite Hstatus. cbn. rewrite Hres. f_equal.
      rewrite <- list_fmap_compose. rewrite <- (list_fmap_id l) at 2.
      apply list_fmap_ext. intros k entry Hk. cbn.
      apply patched_twice.
      * by apply (Forall_lookup_1 _ _ _ _ Hl Hk).
      * apply Hnone. by apply list_elem_of_lookup_2 with k.
    + apply Forall_fmap. revert Hl; apply Forall_impl.
      intros entry Hentry. cbn. by apply patched_not_nullish.
Qed.

Lemma request_then_cancel_restores_witness :
  let results := [user "u1" "alice" "none"; user "u2" "bob" "none"] in
  let created := VObj {[ "status" := VStr "requested"; "message" := VStr "Friend request sent" ]} in
  let cancelled := VObj {[ "status" := VStr "cancelled"; "message" := VStr "Friend request cancelled" ]} in
  let st := with_searchResults (VArr results) initial in
  let st1 := run st [ClickRequest "u2"; Settle 0 (replies created)] in
  let st2 := run st1 [ClickRequest "u2"; Settle 1 (replies cancelled)] in
  searchResults st1 = VArr [user "u1" "alice" "none"; user "u2" "bob" "requested"]
  ∧ searchResults st2 = VArr results.
Proof.
  intros results created cancelled st st1 st2.
  split; [reflexivity|].
  refine (proj2 (request_then_cancel_restores st "u2" results 200%N 200%N created cancelled
                   eq_refl _ _ eq_refl eq_refl eq_refl)).
  - by repeat constructor.
  - intros entry Hin Hid.
    apply elem_of_cons in Hin as [->|Hin]; [vm_compute in Hid; discriminate Hid|].
    apply elem_of_cons in Hin as [->|Hin]; [reflexivity|].
    by apply elem_of_nil in Hin.
Defined.

(** * Loading and accepting *)

Lemma step_settle_middle st l1 l2 t o :
  inflight st = l1 ++ t :: l2 →
  step st (Settle (length l1) o) =
  match resume t o (with_inflight (l1 ++ l2) st) with
  | (Returns _, st') => st'
  | (Throws e, st') => with_uncaught (uncaught st' ++ [e]) st'
  end.
Proof.
  intros H. unfold step.
  rewrite (settle_lookup st (length l1) t o) by (rewrite H; by apply list_lookup_middle).
  by rewrite H, delete_middle.
Qed.

Ltac settle_last :=
  erewrite step_settle_middle by (cbn; reflexivity); cbn; rewrite ?app_nil_r.

(** C7, as stated, fails: the recommendations request is rejected while the
    other two resolve.  Friends and pending requests are populated and the
    recommendations stay empty, but the failure only reaches the console:
    no error notification is emitted.  The three requests are also sent one
    after the other, not together. *)
Lemma failed_load_not_notified :
  let fs := VArr [user "u1" "alice" "friend"] in
  let ps := VArr [user "u2" "bob" "none"] in
  let mounted := step initial Mount in
  let st := run mounted [Settle 0 (replies fs); Settle 0 Rejects; Settle 0 (replies ps)] in
  inflight mounted = [Load Friends [Recommendations; PendingRequests]]
  ∧ friends st = fs ∧ pendingRequests st = ps ∧ recommendations st = VArr []
  ∧ console st = [("Error fetching recommendations:", NetworkError)]
  ∧ notifications st = Notification (VStr "") ""
  ∧ type (notifications st) ≠ "error".
Proof. vm_compute. repeat split; discriminate. Qed.

(** C7, amended: the three loaders run one after the other, each request
    sent when the one before has settled.  However a request settles, the
    next is sent; a loader whose call fails leaves its collection at its
    previous value while the others are populated; each failure is one line
    on the console, and the notification is never touched. *)
Theorem fetchAllData_isolates_failures st o1 o2 o3 :
  let n := length (inflight st) in
  let st1 := step st Mount in
  let st2 := step st1 (Settle n o1) in
  let st3 := step st2 (Settle n o2) in
  let st4 := step st3 (Settle n o3) in
  inflight st1 = inflight st ++ [Load Friends [Recommendations; PendingRequests]]
  ∧ inflight st2 = inflight st ++ [Load Recommendations [PendingRequests]]
  ∧ inflight st3 = inflight st ++ [Load PendingRequests []]
  ∧ inflight st4 = inflight st
  ∧ friends st4 = loaded o1 (friends st)
  ∧ recommendations st4 = loaded o2 (recommendations st)
  ∧ pendingRequests st4 = loaded o3 (pendingRequests st)
  ∧ console st4 =
      console st ++ logged Friends o1 ++ logged Recommendations o2 ++ logged PendingRequests o3
  ∧ notifications st4 = notifications st
  ∧ uncaught st4 = uncaught st.
Proof.
  intros n st1 st2 st3 st4. subst n st1 st2 st3 st4.
  destruct st as [term results fs recs ps note con unc t tm fl snt]. cbn.
  destruct o1 as [|[http1 [data1|]]], o2 as [|[http2 [data2|]]], o3 as [|[http3 [data3|]]];
    do 3 settle_last; exec; rewrite <- ?(assoc_L (++)); done.
Qed.

(** C8, as stated, fails: accept removes nothing from the pending requests
    itself.  The accept call for "u1" resolves; the entry is still pending.
    Both collections are requested again; the friends refresh resolves with
    "u1" in it and the pending refresh is rejected: "u1" is now a friend and
    still a pending request. *)
Lemma accepted_user_still_pending :
  let entry := VObj {[ "_id" := VStr "u1"; "username" := VStr "alice" ]} in
  let st := with_pendingRequests (VArr [entry]) initial in
  let accepted :=
    run st [ClickAccept "u1";
            Settle 0 (replies (VObj {[ "message" := VStr "Friend request accepted" ]}))] in
  let refreshed := run accepted [Settle 1 (replies (VArr [entry])); Settle 0 Rejects] in
  ids (pendingRequests accepted) = [VStr "u1"]
  ∧ inflight accepted = [Load PendingRequests []; Load Friends []]
  ∧ ids (friends refreshed) = [VStr "u1"]
  ∧ ids (pendingRequests refreshed) = [VStr "u1"]
  ∧ inflight refreshed = [].
Proof. vm_compute. repeat split. Qed.

(** C8, amended: when the accept call for [userId] resolves, no collection
    is edited; the pending requests and the friends are both requested
    again, and once both refreshes have resolved the two collections are
    the lists the server returned, so that [userId] is absent from the
    pending requests and present among the friends when it is so in those
    lists. *)
Theorem accept_refetches_both st i userId r sp sf ps fs :
  inflight st !! i = Some (AcceptFriendRequest userId) →
  let n := length (inflight st) - 1 in
  let accepted := step st (Settle i (Resolves r)) in
  let refreshed := run accepted [Settle n (Resolves (Response sp (Some ps)));
                                 Settle n (Resolves (Response sf (Some fs)))] in
  collections accepted = collections st
  ∧ inflight accepted = delete i (inflight st) ++ [Load PendingRequests []; Load Friends []]
  ∧ pendingRequests refreshed = ps
  ∧ friends refreshed = fs
  ∧ ((VStr userId ∉ ids ps) → (VStr userId ∈ ids fs) →
     (VStr userId ∉ ids (pendingRequests refreshed)) ∧ (VStr userId ∈ ids (friends refreshed))).
Proof.
  intros Hi n accepted refreshed.
  assert (Hn : n = length (delete i (inflight st))).
  { unfold n. rewrite length_delete; [done|by eexists]. }
  assert (Hacc : accepted =
    with_sent (sent st ++ [(now st, Load PendingRequests []); (now st, Load Friends [])])
      (with_inflight (delete i (inflight st) ++ [Load PendingRequests []; Load Friends []]) st)).
  { unfold accepted, step. rewrite (settle_lookup _ _ _ _ Hi). exec.
    by rewrite <- !(assoc_L (++)). }
  assert (Hps : pendingRequests refreshed = ps ∧ friends refreshed = fs).
  { unfold refreshed, run. cbn [foldl]. rewrite Hn.
    rewrite (step_settle_middle accepted (delete i (inflight st))
               [Load Friends []] (Load PendingRequests []))
      by (rewrite Hacc; reflexivity).
    rewrite Hacc. exec_body.
    erewrite step_settle_middle by (cbn; reflexivity). exec_body. done. }
  destruct Hps as [Hps Hfs]. rewrite Hps, Hfs.
  split; [by rewrite Hacc|]. split; [by rewrite Hacc|]. done.
Qed.

Lemma accept_refetches_both_witness :
  let entry := VObj {[ "_id" := VStr "u1"; "username" := VStr "alice" ]} in
  let st := run (with_pendingRequests (VArr [entry]) initial) [ClickAccept "u1"] in
  let accepted := step st (Settle 0 (Resolves (Response 200 None))) in
  let refreshed := run accepted [Settle 0 (replies (VArr [])); Settle 0 (replies (VArr [entry]))] in
  pendingRequests refreshed = VArr [] ∧ friends refreshed = VArr [entry].
Proof.
  intros entry st accepted refreshed.
  destruct (accept_refetches_both st 0 "u1" (Response 200 None) 200%N 200%N (VArr []) (VArr [entry]))
    as (_ & _ & Hp & Hf & _); [reflexivity|].
  split; [exact Hp | exact Hf].
Defined.

(** * Further properties of [Home] *)

Lemma failed_call_keeps_collections_witness :
  let st := run (with_searchResults (VArr [user "u1" "alice" "none"]) initial)
              [Change "b"; Elapse 300] in
  collections (step st (Settle 0 (Resolves (Response 200 None)))) = collections st.
Proof.
  intros st.
  apply (failed_call_keeps_collections st 0 (Search "b") (Resolves (Response 200 None)));
    reflexivity.
Defined.

(** Nothing that is displayed from the four collections changes unless a
    request settles or the search box is emptied: not on mount, not on a
    click, not on a keystroke with a non-empty term, not when time passes
    and the debounced search is sent. *)
Lemma only_responses_change_collections st ev :
  (∀ i o, ev ≠ Settle i o) →
  ev ≠ Change "" →
  collections (step st ev) = collections st.
Proof.
  intros Hsettle Hclear.
  destruct ev as [|term|d|userId|userId|userId|i o]; try reflexivity.
  - destruct term; [congruence|reflexivity].
  - unfold step, handle, elapse. destruct (timer st) as [[due term]|]; [|reflexivity].
    destruct (due <=? now st + d)%N; reflexivity.
  - by destruct (Hsettle i o).
Qed.

Lemma only_responses_change_collections_witness :
  let st := run (with_searchResults (VArr [user "u1" "alice" "none"]) initial) [Change "al"] in
  collections (step st (Elapse 300)) = collections st
  ∧ sent (step st (Elapse 300)) = [(300%N, Search "al")].
Proof.
  intros st. split; [|reflexivity].
  apply (only_responses_change_collections st (Elapse 300)); discriminate.
Defined.

(** Unfriend edits nothing locally.  Whatever response its call gets, the
    status and the body are not read, one request for the friends is sent,
    and the friends become what that request returns; no other collection
    changes. *)
Theorem unfriend_refetches_friends st i userId r http fs :
  inflight st !! i = Some (Unfriend userId) →
  let n := length (inflight st) - 1 in
  let answered := step st (Settle i (Resolves r)) in
  let refreshed := step answered (Settle n (Resolves (Response http (Some fs)))) in
  collections answered = collections st
  ∧ inflight answered = delete i (inflight st) ++ [Load Friends []]
  ∧ sent answered = sent st ++ [(now st, Load Friends [])]
  ∧ collections refreshed = (searchResults st, fs, recommendations st, pendingRequests st)
  ∧ inflight refreshed = delete i (inflight st).
Proof.
  intros Hi n answered refreshed.
  assert (Hn : n = length (delete i (inflight st))).
  { unfold n. rewrite length_delete; [done|by eexists]. }
  assert (Hans : answered =
    with_sent (sent st ++ [(now st, Load Friends [])])
      (with_inflight (delete i (inflight st) ++ [Load Friends []]) st)).
  { unfold answered, step. rewrite (settle_lookup _ _ _ _ Hi). by exec. }
  assert (Href : refreshed =
    with_friends fs (with_inflight (delete i (inflight st)) answered)).
  { unfold refreshed. rewrite Hn.
    rewrite (step_settle_middle answered (delete i (inflight st)) [] (Load Friends []))
      by (rewrite Hans; reflexivity).
    rewrite app_nil_r. by exec_body. }
  rewrite Href, Hans. done.
Qed.

Lemma unfriend_refetches_friends_witness :
  let bob := user "u2" "bob" "friend" in
  let st := run (with_friends (VArr [user "u1" "alice" "friend"; bob]) initial)
              [ClickUnfriend "u1"] in
  let answered := step st (Settle 0 (Resolves (Response 500 None))) in
  let refreshed := step answered (Settle 0 (replies (VArr [bob]))) in
  friends answered = VArr [user "u1" "alice" "friend"; bob]
  ∧ friends refreshed = VArr [bob].
Proof.
  intros bob st answered refreshed.
  destruct (unfriend_refetches_friends st 0 "u1" (Response 500 None) 200%N (VArr [bob]))
    as (Ha & _ & _ & Hr & _); [reflexivity|].
  split; [exact (f_equal (λ c, c.1.1.2) Ha) | exact (f_equal (λ c, c.1.1.2) Hr)].
Defined.

(** A loader that resolves with a body stores it in its own collection and
    touches nothing else: not the other collections, not the search
    results, not the notification; a loader started on its own sends
    nothing further, one started by [fetchAllData] sends the next. *)
Lemma loader_resolved_frame st i which rest http data :
  inflight st !! i = Some (Load which rest) →
  let st' := step st (Settle i (Resolves (Response http (Some data)))) in
  collection_of which st' = data
  ∧ (∀ other, other ≠ which → collection_of other st' = collection_of other st)
  ∧ searchResults st' = searchResults st
  ∧ notifications st' = notifications st
  ∧ console st' = console st
  ∧ inflight st' =
      delete i (inflight st) ++
      match rest with [] => [] | next :: rest' => [Load next rest'] end.
Proof.
  intros Hi st'. unfold st', step. rewrite (settle_lookup _ _ _ _ Hi).
  destruct which, rest as [|next rest']; exec; rewrite ?app_nil_r;
    repeat split; intros []; done.
Qed.

Lemma loader_resolved_frame_witness :
  let st := run (with_recommendations (VArr [VStr "old"]) initial) [Mount] in
  let st' := step st (Settle 0 (replies (VArr [user "u1" "alice" "friend"]))) in
  friends st' = VArr [user "u1" "alice" "friend"]
  ∧ recommendations st' = VArr [VStr "old"]
  ∧ inflight st' = [Load Recommendations [PendingRequests]].
Proof.
  intros st st'.
  destruct (loader_resolved_frame st 0 Friends [Recommendations; PendingRequests] 200%N
              (VArr [user "u1" "alice" "friend"])) as (Hf & Ho & _ & _ & _ & Hi);
    [reflexivity|].
  split; [exact Hf|]. split; [|exact Hi].
  apply (Ho Recommendations). discriminate.
Defined.

Lemma step_keeps_terms_nonempty st ev :
  (∀ due, timer st ≠ Some (due, "")) →
  Forall (λ r, r.2 ≠ Search "") (sent st) →
  (∀ due, timer (step st ev) ≠ Some (due, ""))
  ∧ Forall (λ r, r.2 ≠ Search "") (sent (step st ev)).
Proof.
  intros Htimer Hsent.
  assert (Hadd : ∀ r, r.2 ≠ Search "" → Forall (λ r, r.2 ≠ Search "") (sent st ++ [r])).
  { intros r Hr. apply Forall_app. split; [done|]. by constructor. }
  destruct ev as [|term|d|userId|userId|userId|i o].
  - split; [exact Htimer|]. by apply Hadd.
  - destruct term as [|c term]; (split; [|exact Hsent]); [exact Htimer|].
    intros due. exec. discriminate.
  - unfold step, handle, elapse.
    destruct (timer st) as [[due term]|] eqn:Ht;
      [|split; [cbn; by rewrite Ht | exact Hsent]].
    destruct (due <=? now st + d)%N; [|split; [cbn; by rewrite Ht | exact Hsent]].
    exec. split; [done|]. apply Hadd. cbn. intros [= ->]. by apply (Htimer due).
  - split; [exact Htimer|]. by apply Hadd.
  - split; [exact Htimer|]. by apply Hadd.
  - split; [exact Htimer|]. by apply Hadd.
  - unfold step, handle, settle. destruct (inflight st !! i) as [t|]; [|done].
    destruct t as [[] [|next rest]| | | |], o as [|[http [data|]]];
      try (split; [exact Htimer|]; (exact Hsent || by apply Hadd)).
    + exec_body. unfold setSearchResults_with.
      destruct data; cbn; try (split; [exact Htimer|]; (exact Hsent || by apply Hadd));
        destruct (array_map _ _); cbn; (split; [exact Htimer|]; by apply Hadd).
    + split; [exact Htimer|]. exec_body. rewrite <- (assoc_L (++)).
      apply Forall_app. split; [done|]. by repeat constructor.
    + split; [exact Htimer|]. exec_body. rewrite <- (assoc_L (++)).
      apply Forall_app. split; [done|]. by repeat constructor.
Qed.

(** The component never searches for the empty string: whatever happens
    after the first render, no search request is sent with an empty term. *)
Theorem no_empty_search_sent evs :
  Forall (λ r, r.2 ≠ Search "") (sent (run initial evs)).
Proof.
  enough (∀ st, (∀ due, timer st ≠ Some (due, "")) →
                Forall (λ r, r.2 ≠ Search "") (sent st) →
                Forall (λ r, r.2 ≠ Search "") (sent (run st evs))) as H
    by (apply H; [done | constructor]).
  induction evs as [|ev evs IH]; intros st Htimer Hsent; [done|].
  destruct (step_keeps_terms_nonempty st ev Htimer Hsent) as [Htimer' Hsent'].
  exact (IH (step st ev) Htimer' Hsent').
Qed.

(** The notification is written by the toggle alone: an event that is not
    the settling of a toggle call leaves it as it is. *)
Lemma notification_only_from_toggle st ev :
  (∀ i o userId, ev = Settle i o → inflight st !! i ≠ Some (SendFriendRequest userId)) →
  notifications (step st ev) = notifications st.
Proof.
  intros Hev. destruct ev as [|term|d|userId|userId|userId|i o]; try reflexivity.
  - exec. by destruct (bool_decide _).
  - unfold step, handle, elapse. destruct (timer st) as [[due term]|]; [|reflexivity].
    destruct (due <=? now st + d)%N; reflexivity.
  - specialize (Hev i o). unfold step, handle, settle.
    destruct (inflight st !! i) as [t|]; [|reflexivity].
    destruct t as [[] [|next rest]| |userId| |], o as [|[http [data|]]];
      try reflexivity; by destruct (Hev userId eq_refl).
Qed.

Lemma notification_only_from_toggle_witness :
  let st := run initial [ClickRequest "u1"; Settle 0 Rejects; ClickAccept "u2"] in
  notifications (step st (Settle 0 (replies (VObj {[ "message" := VStr "Accepted" ]}))))
  = Notification (VStr "Error managing friend request") "error".
Proof.
  intros st.
  apply (notification_only_from_toggle st
           (Settle 0 (replies (VObj {[ "message" := VStr "Accepted" ]})))).
  intros i o userId [= <- <-]. discriminate.
Defined.

(** A toggle call answered with the JSON value [null]: reading
    [data.message] throws, the [catch] of [sendFriendRequest] takes it as
    any failure.  An error notification is set, the collections stay as
    they are, and the recommendations are not requested. *)
Lemma toggle_null_body_is_failure st i userId http :
  inflight st !! i = Some (SendFriendRequest userId) →
  let st' := step st (Settle i (Resolves (Response http (Some VNull)))) in
  notifications st' = Notification (VStr "Error managing friend request") "error"
  ∧ console st' = console st ++ [("Error managing friend request:", TypeError)]
  ∧ collections st' = collections st
  ∧ sent st' = sent st
  ∧ uncaught st' = uncaught st.
Proof.
  intros Hi st'. unfold st', step. rewrite (settle_lookup _ _ _ _ Hi). by exec.
Qed.

Lemma toggle_null_body_is_failure_witness :
  let st := run initial [ClickRequest "u1"] in
  let st' := step st (Settle 0 (replies VNull)) in
  type (notifications st') = "error" ∧ sent st' = sent st.
Proof.
  intros st st'.
  destruct (toggle_null_body_is_failure st 0 "u1" 200%N) as (Hn & _ & _ & Hs & _);
    [reflexivity|].
  split; [exact (f_equal type Hn) | exact Hs].
Defined.

Lemma step_notification_type st ev :
  notifications (step st ev) = notifications st
  ∨ type (notifications (step st ev)) = "success"
  ∨ type (notifications (step st ev)) = "info"
  ∨ type (notifications (step st ev)) = "error".
Proof.
  destruct ev as [|term|d|userId|userId|userId|i o]; try (by left).
  - left. exec. by destruct (bool_decide _).
  - left. unfold step, handle, elapse. destruct (timer st) as [[due term]|]; [|reflexivity].
    destruct (due <=? now st + d)%N; reflexivity.
  - unfold step, handle, settle. destruct (inflight st !! i) as [t|]; [|by left].
    destruct t as [[] [|next rest]| |userId| |], o as [|[http [data|]]];
      try (by left); try (by right; right; right).
    exec_body. unfold setSearchResults_with.
    destruct data; cbn; try (by right; right; right);
      try destruct (strict_eq_str _ _); destruct (array_map _ _); cbn; auto.
Qed.

(** After the first render the notification is either the initial, empty
    one, or of type success, info or error: the banner never gets a type
    it has no colour for. *)
Theorem notification_type_known evs :
  let n := notifications (run initial evs) in
  n = Notification (VStr "") ""
  ∨ type n = "success" ∨ type n = "info" ∨ type n = "error".
Proof.
  enough (∀ st, (notifications st = Notification (VStr "") ""
                 ∨ type (notifications st) = "success"
                 ∨ type (notifications st) = "info"
                 ∨ type (notifications st) = "error") →
                notifications (run st evs) = Notification (VStr "") ""
                ∨ type (notifications (run st evs)) = "success"
                ∨ type (notifications (run st evs)) = "info"
                ∨ type (notifications (run st evs)) = "error") as H
    by (apply H; by left).
  induction evs as [|ev evs IH]; intros st Hst; [done|].
  apply (IH (step st ev)).
  destruct (step_notification_type st ev) as [-> | H]; [done | by right].
Qed.

Lemma patched_keeps_id userId requested entry :
  get_prop (patched userId requested entry) "_id" = get_prop entry "_id".
Proof.
  unfold patched, patch_user.
  destruct (get_prop entry "_id") as [e|id] eqn:Hid; [done|].
  destruct (strict_eq_str id userId) eqn:Heq; [|done].
  apply strict_eq_str_true in Heq as ->.
  destruct entry; try discriminate Hid. cbn in Hid |- *.
  by rewrite lookup_insert_ne.
Qed.

Lemma ids_patched userId requested l :
  ids (VArr (patched userId requested <$> l)) = ids (VArr l).
Proof.
  cbn. induction l as [|entry l IH]; [done|]. cbn.
  by rewrite patched_keeps_id, IH.
Qed.

(** A resolved toggle neither adds nor removes nor reorders a search
    result: the [_id]s displayed are the same, in the same order. *)
Theorem toggle_keeps_ids st i userId http data l :
  inflight st !! i = Some (SendFriendRequest userId) →
  nullish data = false →
  searchResults st = VArr l →
  Forall (λ entry, nullish entry = false) l →
  ids (searchResults (step st (Settle i (Resolves (Response http (Some data))))))
  = ids (searchResults st).
Proof.
  intros Hi Hdata Hres Hl.
  rewrite (sendFriendRequest_resolved _ _ _ _ _ _ Hi Hdata Hres Hl), Hres.
  apply ids_patched.
Qed.

Lemma toggle_keeps_ids_witness :
  let st := run (with_searchResults (VArr [user "u1" "alice" "none"; user "u2" "bob" "friend"])
                   initial) [ClickRequest "u1"] in
  ids (searchResults (step st (Settle 0 (replies (VObj {[ "status" := VStr "requested" ]})))))
  = [VStr "u1"; VStr "u2"].
Proof.
  intros st.
  apply (toggle_keeps_ids st 0 "u1" 200%N (VObj {[ "status" := VStr "requested" ]})
           [user "u1" "alice" "none"; user "u2" "bob" "friend"]);
    [reflexivity | reflexivity | reflexivity | by repeat constructor].
Defined.

Lemma patched_already userId (requested : bool) entry :
  (get_prop entry "_id" = inr (VStr userId) →
   get_prop entry "requestStatus" = inr (VStr (if requested then "requested" else "none"))) →
  patched userId requested entry = entry.
Proof.
  intros Hshown.
  destruct (get_prop entry "_id") as [e|id] eqn:Hid;
    [by unfold patched, patch_user; rewrite Hid|].
  destruct (strict_eq_str id userId) eqn:Heq.
  - apply strict_eq_str_true in Heq as ->. specialize (Hshown eq_refl).
    rewrite (patched_match _ _ _ Hid).
    destruct entry as [| | | | | |o]; try discriminate Hid. cbn in Hshown |- *.
    f_equal. apply insert_id.
    destruct (o !! "requestStatus") as [v|]; cbn in Hshown; congruence.
  - apply patched_other. rewrite Hid. intros [= ->].
    cbn in Heq. by rewrite bool_decide_eq_true_2 in Heq.
Qed.

(** A reply that reports the status already displayed changes no search
    result: a second 'requested' for a user shown as requested, or a
    cancellation for a user shown as none, leaves the results as they
    are. *)
Theorem toggle_already_displayed st i userId http data l :
  inflight st !! i = Some (SendFriendRequest userId) →
  nullish data = false →
  searchResults st = VArr l →
  Forall (λ entry, nullish entry = false) l →
  let requested := strict_eq_str (field data "status") "requested" in
  (∀ entry, entry ∈ l → get_prop entry "_id" = inr (VStr userId) →
     get_prop entry "requestStatus" = inr (VStr (if requested then "requested" else "none"))) →
  searchResults (step st (Settle i (Resolves (Response http (Some data))))) = searchResults st.
Proof.
  intros Hi Hdata Hres Hl requested Hshown.
  rewrite (sendFriendRequest_resolved _ _ _ _ _ _ Hi Hdata Hres Hl), Hres. cbn. f_equal.
  rewrite <- (list_fmap_id l) at 2. apply list_fmap_ext. intros k entry Hk. cbn.
  apply patched_already. apply Hshown. by apply list_elem_of_lookup_2 with k.
Qed.

Lemma toggle_already_displayed_witness :
  let results := VArr [user "u1" "alice" "requested"] in
  let st := run (with_searchResults results initial) [ClickRequest "u1"] in
  searchResults (step st (Settle 0 (replies (VObj {[ "status" := VStr "requested" ]}))))
  = results.
Proof.
  intros results st.
  apply (toggle_already_displayed st 0 "u1" 200%N (VObj {[ "status" := VStr "requested" ]})
           [user "u1" "alice" "requested"]);
    [reflexivity | reflexivity | reflexivity | by repeat constructor |].
  intros entry Hin _.
  apply elem_of_cons in Hin as [->|Hin]; [reflexivity|]. by apply elem_of_nil in Hin.
Defined.

Lemma patched_commute u1 u2 r1 r2 entry :
  u1 ≠ u2 →
  patched u1 r1 (patched u2 r2 entry) = patched u2 r2 (patched u1 r1 entry).
Proof.
  intros Hne.
  assert (Hother : ∀ u u' r e, u ≠ u' → get_prop e "_id" = inr (VStr u) →
            patched u' r e = e).
  { intros u u' r e Hu He. apply patched_other. rewrite He. congruence. }
  destruct (get_prop entry "_id") as [e|id] eqn:Hid.
  - assert (∀ u r, patched u r entry = entry) as Hsame
      by (intros; unfold patched, patch_user; by rewrite Hid).
    by rewrite !Hsame.
  - destruct (strict_eq_str id u1) eqn:H1; [|destruct (strict_eq_str id u2) eqn:H2].
    + apply strict_eq_str_true in H1 as ->.
      rewrite (Hother u1 u2 r2 entry) by done.
      symmetry. apply (Hother u1 u2); [done|]. by rewrite patched_keeps_id.
    + apply strict_eq_str_true in H2 as ->.
      rewrite (Hother u2 u1 r1 entry) by done.
      apply (Hother u2 u1); [done|]. by rewrite patched_keeps_id.
    + assert (∀ u r, strict_eq_str id u = false → patched u r entry = entry) as Hsame.
      { intros u r Hu. apply patched_other. rewrite Hid. intros [= ->].
        cbn in Hu. by rewrite bool_decide_eq_true_2 in Hu. }
      by rewrite (Hsame u2 r2 H2), (Hsame u1 r1 H1), (Hsame u2 r2 H2).
Qed.

Lemma toggle_resolved_results st i userId http data l :
  inflight st !! i = Some (SendFriendRequest userId) →
  nullish data = false →
  searchResults st = VArr l →
  Forall (λ entry, nullish entry = false) l →
  let st' := step st (Settle i (Resolves (Response http (Some data)))) in
  searchResults st' =
    VArr (patched userId (strict_eq_str (field data "status") "requested") <$> l)
  ∧ inflight st' = delete i (inflight st) ++ [Load Recommendations []].
Proof.
  intros Hi Hdata Hres Hl st'. unfold st'.
  by rewrite (sendFriendRequest_resolved _ _ _ _ _ _ Hi Hdata Hres Hl).
Qed.

(** Toggle calls for two different users can be answered in either order:
    the displayed results end up the same.  (The notification is that of
    the reply that came last.) *)
Theorem toggles_of_two_users_commute st i j u1 u2 h1 h2 d1 d2 l :
  inflight st !! i = Some (SendFriendRequest u1) →
  inflight st !! j = Some (SendFriendRequest u2) →
  i < j →
  u1 ≠ u2 →
  nullish d1 = false →
  nullish d2 = false →
  searchResults st = VArr l →
  Forall (λ entry, nullish entry = false) l →
  searchResults (run st [Settle i (Resolves (Response h1 (Some d1)));
                         Settle (pred j) (Resolves (Response h2 (Some d2)))])
  = searchResults (run st [Settle j (Resolves (Response h2 (Some d2)));
                           Settle i (Resolves (Response h1 (Some d1)))]).
Proof.
  intros Hi Hj Hlt Hne Hd1 Hd2 Hres Hl.
  assert (Hlen : j < length (inflight st)) by (by eapply lookup_lt_Some).
  assert (Hkeep : ∀ u r, Forall (λ entry, nullish entry = false) (patched u r <$> l)).
  { intros u r. apply Forall_fmap. revert Hl. apply Forall_impl.
    intros entry Hentry. cbn. by apply patched_not_nullish. }
  unfold run. cbn [foldl].
  destruct (toggle_resolved_results st i u1 h1 d1 l Hi Hd1 Hres Hl) as [Hr1 Hf1].
  destruct (toggle_resolved_results st j u2 h2 d2 l Hj Hd2 Hres Hl) as [Hr2 Hf2].
  cbn in Hr1, Hf1, Hr2, Hf2.
  assert (HA : inflight (step st (Settle i (Resolves (Response h1 (Some d1))))) !! pred j
               = Some (SendFriendRequest u2)).
  { rewrite Hf1, lookup_app_l by (rewrite length_delete by (by eexists); lia).
    rewrite list_lookup_delete_ge by lia. by replace (S (pred j)) with j by lia. }
  assert (HB : inflight (step st (Settle j (Resolves (Response h2 (Some d2))))) !! i
               = Some (SendFriendRequest u1)).
  { rewrite Hf2, lookup_app_l by (rewrite length_delete by (by eexists); lia).
    by rewrite list_lookup_delete_lt. }
  destruct (toggle_resolved_results _ _ _ h2 _ _ HA Hd2 Hr1 (Hkeep _ _)) as [-> _].
  destruct (toggle_resolved_results _ _ _ h1 _ _ HB Hd1 Hr2 (Hkeep _ _)) as [-> _].
  f_equal. rewrite <- !list_fmap_compose. apply list_fmap_ext. intros k entry _. cbn.
  symmetry. by apply patched_commute.
Qed.

Lemma toggles_of_two_users_commute_witness :
  let st := run (with_searchResults (VArr [user "u1" "alice" "none"; user "u2" "bob" "requested"])
                   initial) [ClickRequest "u1"; ClickRequest "u2"] in
  let created := VObj {[ "status" := VStr "requested" ]} in
  let cancelled := VObj {[ "status" := VStr "cancelled" ]} in
  searchResults (run st [Settle 0 (replies created); Settle 0 (replies cancelled)])
  = searchResults (run st [Settle 1 (replies cancelled); Settle 0 (replies created)]).
Proof.
  intros st created cancelled.
  apply (toggles_of_two_users_commute st 0 1 "u1" "u2" 200%N 200%N created cancelled
           [user "u1" "alice" "none"; user "u2" "bob" "requested"]);
    [reflexivity | reflexivity | lia | discriminate | reflexivity | reflexivity
    | reflexivity | by repeat constructor].
Defined.

(** Keystrokes that are each left alone for the debounce wait are all
    searched: with non-empty terms, every gap at least 300 ms and a last
    wait of at least 300 ms, one request per keystroke is sent, in order,
    each 300 ms after its key. *)
Theorem slow_typing_sends_every_term first more waits : ∀ st,
  first ≠ "" →
  Forall (λ k, (wait ≤ k.1)%N ∧ k.2 ≠ "") more →
  (wait ≤ total waits)%N →
  sent (run st (typing first more ++ waiting waits)) = sent st ++ requests_of (now st) first more.
Proof.
  revert first. induction more as [|[gap term] more IH]; intros first st Hfirst Hmore Hwaits.
  - cbn [typing app run foldl]. rewrite change_schedules by done.
    destruct (waiting_fires_once waits
      (with_timer (Some ((now st + 300)%N, first)) (with_searchTerm first st))
      (now st + 300)%N first) as [Hsent _]; [reflexivity | cbn; lia |].
    unfold run in Hsent. rewrite Hsent. cbn. unfold wait in *.
    by destruct (N.leb_spec (now st + 300) (now st + total waits)); [|lia].
  - inversion Hmore as [|? ? [Hgap Hterm] Hmore']; subst. cbn in Hgap, Hterm.
    cbn [typing app run foldl]. rewrite change_schedules by done.
    erewrite elapse_past_due; [|reflexivity|cbn; unfold wait in *; lia].
    unfold run in IH. rewrite IH by done. cbn.
    by rewrite <- (assoc_L (++)).
Qed.

Lemma slow_typing_sends_every_term_witness :
  sent (run initial (typing "a" [(300%N, "ab"); (1000%N, "abc")] ++ waiting [200%N; 100%N]))
  = [(300%N, Search "a"); (600%N, Search "ab"); (1600%N, Search "abc")].
Proof.
  apply (slow_typing_sends_every_term "a" [(300%N, "ab"); (1000%N, "abc")] [200%N; 100%N] initial).
  - discriminate.
  - repeat constructor; cbn; (by vm_compute) || discriminate.
  - by vm_compute.
Defined.

(** * What is rendered after a toggle *)

(** A failed toggle call always shows a banner, and it is the red one. *)
Lemma banner_after_failed_toggle st i userId o :
  inflight st !! i = Some (SendFriendRequest userId) →
  fails (SendFriendRequest userId) o = true →
  banner (notifications (step st (Settle i o))) = Built "mb-4 p-4 rounded bg-red-100 text-red-700".
Proof.
  intros Hi Hf. unfold step. rewrite (settle_lookup _ _ _ _ Hi).
  by destruct o as [|[http [data|]]].
Qed.

Lemma banner_after_failed_toggle_witness :
  banner (notifications (run initial [ClickRequest "u1"; Settle 0 Rejects]))
  = Built "mb-4 p-4 rounded bg-red-100 text-red-700".
Proof.
  apply (banner_after_failed_toggle (run initial [ClickRequest "u1"]) 0 "u1" Rejects);
    reflexivity.
Defined.

(** While the displayed results are an array without [null]s, a resolved
    toggle call shows a banner only when the reply carries a truthy
    [message] that React can render: green when the reply reports
    'requested', blue otherwise.  A reply without a message (or with an
    empty one) shows no banner, although the toggle took place; a message
    that is an object makes the render throw. *)
Theorem banner_after_resolved_toggle st i userId http data l :
  inflight st !! i = Some (SendFriendRequest userId) →
  nullish data = false →
  searchResults st = VArr l →
  Forall (λ entry, nullish entry = false) l →
  let requested := strict_eq_str (field data "status") "requested" in
  banner (notifications (step st (Settle i (Resolves (Response http (Some data)))))) =
  if truthy (field data "message")
  then if valid_child (field data "message")
       then Built (if requested
                   then "mb-4 p-4 rounded bg-green-100 text-green-700"
                   else "mb-4 p-4 rounded bg-blue-100 text-blue-700")
       else RenderThrows
  else Nothing.
Proof.
  intros Hi Hdata Hres Hl requested.
  rewrite (sendFriendRequest_resolved _ _ _ _ _ _ Hi Hdata Hres Hl). cbn. fold requested.
  unfold banner. cbn.
  destruct (truthy _); [|done]. destruct (valid_child _); [|done]. by destruct requested.
Qed.

Lemma banner_after_resolved_toggle_witness :
  let st := run (with_searchResults (VArr [user "u1" "alice" "none"]) initial)
              [ClickRequest "u1"] in
  banner (notifications (step st (Settle 0 (replies (VObj {[ "status" := VStr "requested" ]})))))
  = Nothing
  ∧ banner (notifications (step st (Settle 0 (replies
      (VObj {[ "status" := VStr "requested"; "message" := VStr "Friend request sent" ]})))))
    = Built "mb-4 p-4 rounded bg-green-100 text-green-700".
Proof.
  intros st.
  assert (Hl : Forall (λ entry, nullish entry = false) [user "u1" "alice" "none"])
    by (by repeat constructor).
  split.
  - exact (banner_after_resolved_toggle st 0 "u1" 200%N
             (VObj {[ "status" := VStr "requested" ]}) _ eq_refl eq_refl eq_refl Hl).
  - exact (banner_after_resolved_toggle st 0 "u1" 200%N
             (VObj {[ "status" := VStr "requested"; "message" := VStr "Friend request sent" ]})
             _ eq_refl eq_refl eq_refl Hl).
Defined.

(** After a resolved toggle the cards of that user offer one button, the
    action opposite to the reported status: Cancel Request when the reply
    reports 'requested', Add Friend otherwise, whatever they offered
    before; the button carries the same [_id].  The other cards offer what
    they offered. *)
Theorem controls_after_toggle st i userId http data l :
  inflight st !! i = Some (SendFriendRequest userId) →
  nullish data = false →
  searchResults st = VArr l →
  Forall (λ entry, nullish entry = false) l →
  let requested := strict_eq_str (field data "status") "requested" in
  ∃ l', searchResults (step st (Settle i (Resolves (Response http (Some data))))) = VArr l'
    ∧ ∀ k entry, l !! k = Some entry →
        ∃ entry', l' !! k = Some entry'
          ∧ (get_prop entry "_id" = inr (VStr userId) →
             result_controls entry' =
               inr [if requested then CancelRequest (VStr userId) else AddFriend (VStr userId)])
          ∧ (get_prop entry "_id" ≠ inr (VStr userId) →
             result_controls entry' = result_controls entry).
Proof.
  intros Hi Hdata Hres Hl requested.
  rewrite (sendFriendRequest_resolved _ _ _ _ _ _ Hi Hdata Hres Hl). cbn. fold requested.
  eexists; split; [reflexivity|]. intros k entry Hk.
  eexists. rewrite list_lookup_fmap, Hk. split; [reflexivity|]. split; intros Hid.
  - rewrite (patched_match _ _ _ Hid). unfold result_controls. cbn.
    rewrite lookup_insert_eq, lookup_insert_ne by done.
    destruct entry; try discriminate Hid. cbn in Hid |- *.
    injection Hid as ->. by destruct requested.
  - by rewrite (patched_other _ _ _ Hid).
Qed.

Lemma controls_after_toggle_witness :
  let st := run (with_searchResults (VArr [user "u1" "alice" "friend"]) initial)
              [ClickRequest "u1"] in
  let st' := step st (Settle 0 (replies (VObj {[ "status" := VStr "cancelled" ]}))) in
  ∃ l', searchResults st' = VArr l'
    ∧ result_controls <$> l' = [inr [AddFriend (VStr "u1")]].
Proof.
  intros st st'.
  destruct (controls_after_toggle st 0 "u1" 200%N (VObj {[ "status" := VStr "cancelled" ]})
              [user "u1" "alice" "friend"]) as (l' & Hl' & _);
    [reflexivity | reflexivity | reflexivity | by repeat constructor |].
  exists l'. split; [exact Hl'|].
  assert (VArr l' = VArr [user "u1" "alice" "none"]) as [= ->] by (rewrite <- Hl'; reflexivity).
  reflexivity.
Defined.

(** * The forms *)

Ltac form_exec :=
  unfold Login.step, Login.handle, Login.handleSubmit_then, Login.handleSubmit,
    Login.setError, Login.called, Login.post, Login.settled,
    Register.step, Register.handle, Register.handleSubmit_then, Register.handleSubmit,
    Register.setError, Register.called, Register.post, Register.settled,
    Form.attempt, Form.awaited, Form.parsed, Form.expect, Form.raise, Form.update,
    mbind, mret, Form.script_bind, Form.script_ret;
  cbn.

(** When a login request settles, the handler returns and exactly one of
    two things has happened.  Either the response was ok with a JSON body
    that is not [null]: [login] is called with the body's [token] and
    [userId], as they are, then [navigate('/')], and the error is left as
    it was.  Or nothing is called and the error is overwritten, with the
    body's [message] when there is a body, with 'Error logging in'
    otherwise.  A response that is not ok never logs in. *)
Theorem login_settle_outcome st o :
  0 < Login.inflight st →
  (Login.handle (Login.Settle o) st).1 = Returns ()
  ∧ let st' := Login.step st (Login.Settle o) in
    match accepted o with
    | Some data =>
        Login.calls st' =
          Login.calls st ++ [Form.CallLogin (field data "token") (field data "userId");
                             Form.Navigate "/"]
        ∧ Login.error st' = Login.error st
    | None =>
        Login.calls st' = Login.calls st
        ∧ Login.error st' = reported "Error logging in" o
    end.
Proof.
  intros Hin. destruct st as [u p e [|n] ps cs]; [cbn in Hin; lia|].
  destruct o as [|[http [data|]]]; [done| |by unfold accepted; cbn; destruct (ok _)].
  unfold accepted, reported. form_exec.
  destruct (ok _); destruct data; cbn; try done; by rewrite <- (assoc_L (++)).
Qed.

Lemma login_settle_outcome_witness :
  let st := Login.run Login.initial [Login.TypeUsername "bob"; Login.Submit] in
  let with_token := VObj {[ "token" := VStr "t0" ]} in
  Login.calls (Login.step st (Login.Settle (Resolves (Response 401 (Some with_token)))))
  = [Form.PreventDefault]
  ∧ Login.calls (Login.step st (Login.Settle (Resolves (Response 200 (Some with_token)))))
    = [Form.PreventDefault; Form.CallLogin (VStr "t0") VUndefined; Form.Navigate "/"].
Proof.
  intros st with_token.
  assert (Hin : 0 < Login.inflight st) by (vm_compute; lia).
  split.
  - exact (proj1 (proj2 (login_settle_outcome st
                           (Resolves (Response 401 (Some with_token))) Hin))).
  - exact (proj1 (proj2 (login_settle_outcome st
                           (Resolves (Response 200 (Some with_token))) Hin))).
Defined.

(** A login refused without a truthy [message] shows nothing: the response
    is not ok, its body has no message (or an empty one), the error
    becomes that value and the error line is not built; nothing is
    called. *)
Theorem login_refusal_without_message_is_silent st r data :
  0 < Login.inflight st →
  ok r = false →
  body r = Some data →
  nullish data = false →
  truthy (field data "message") = false →
  let st' := Login.step st (Login.Settle (Resolves r)) in
  Login.error_shown st' = false ∧ Login.calls st' = Login.calls st.
Proof.
  intros Hin Hok Hbody Hdata Hmsg.
  destruct st as [u p e [|n] ps cs]; [cbn in Hin; lia|].
  destruct r as [http b]. cbn in Hbody. subst b.
  unfold Login.error_shown. form_exec. rewrite Hok.
  rewrite (get_prop_field _ _ Hdata). cbn. by rewrite Hmsg.
Qed.

Lemma login_refusal_without_message_is_silent_witness :
  let st := Login.run Login.initial [Login.Submit] in
  let st' := Login.step st (Login.Settle (Resolves (Response 401
               (Some (VObj {[ "error" := VStr "Invalid credentials" ]}))))) in
  Login.error_shown st' = false ∧ Login.calls st' = [Form.PreventDefault].
Proof.
  intros st st'.
  apply (login_refusal_without_message_is_silent st
           (Response 401 (Some (VObj {[ "error" := VStr "Invalid credentials" ]})))
           (VObj {[ "error" := VStr "Invalid credentials" ]}));
    [vm_compute; lia | reflexivity | reflexivity | reflexivity | reflexivity].
Defined.

(** The same holds of a registration request, with the form's own text
    'Error registering user'. *)
Theorem register_settle_outcome st o :
  0 < Register.inflight st →
  (Register.handle (Register.Settle o) st).1 = Returns ()
  ∧ let st' := Register.step st (Register.Settle o) in
    match accepted o with
    | Some data =>
        Register.calls st' =
          Register.calls st ++ [Form.CallLogin (field data "token") (field data "userId");
                                Form.Navigate "/"]
        ∧ Register.error st' = Register.error st
    | None =>
        Register.calls st' = Register.calls st
        ∧ Register.error st' = reported "Error registering user" o
    end.
Proof.
  intros Hin. destruct st as [u p it e [|n] ps cs]; [cbn in Hin; lia|].
  destruct o as [|[http [data|]]]; [done| |by unfold accepted; cbn; destruct (ok _)].
  unfold accepted, reported. form_exec.
  destruct (ok _); destruct data; cbn; try done; by rewrite <- (assoc_L (++)).
Qed.

Lemma register_settle_outcome_witness :
  let st := Register.run Register.initial [Register.TypeUsername "bob"; Register.Submit] in
  Register.error (Register.step st (Register.Settle (Resolves (Response 409
    (Some (VObj {[ "message" := VStr "Username taken" ]}))))))
  = VStr "Username taken"
  ∧ Register.error (Register.step st (Register.Settle Rejects)) = VStr "Error registering user".
Proof.
  intros st.
  assert (Hin : 0 < Register.inflight st) by (vm_compute; lia).
  split.
  - exact (proj2 (proj2 (register_settle_outcome st (Resolves (Response 409
      (Some (VObj {[ "message" := VStr "Username taken" ]})))) Hin))).
  - exact (proj2 (proj2 (register_settle_outcome st Rejects Hin))).
Defined.

(** * The interests of [Register] *)

Arguments comma : simpl never.

Lemma split_comma_cons s : ∃ piece pieces, split_comma s = piece :: pieces.
Proof.
  induction s as [|c s (piece & pieces & IH)]; [by eexists _, _|].
  cbn. rewrite IH. destruct (Ascii.eqb c comma); by eexists _, _.
Qed.

Lemma split_comma_facts s :
  length (split_comma s) = S (commas s)
  ∧ Forall (λ piece, commas piece = 0) (split_comma s).
Proof.
  induction s as [|c s [IHlen IHall]]; [by repeat constructor|].
  cbn. destruct (split_comma_cons s) as (piece & pieces & Hs). rewrite Hs in *.
  destruct (Ascii.eqb c comma) eqn:Hc; cbn.
  - split; [by rewrite <- IHlen|]. by constructor.
  - split; [done|]. inversion IHall; subst. constructor; [|done]. cbn. by rewrite Hc.
Qed.

Lemma join_comma_split s : join_comma (split_comma s) = s.
Proof.
  induction s as [|c s IH]; [done|].
  cbn. destruct (split_comma_cons s) as (piece & pieces & Hs). rewrite Hs in *.
  destruct (Ascii.eqb c comma) eqn:Hc.
  - apply Ascii.eqb_eq in Hc as ->. by rewrite <- IH.
  - destruct pieces as [|piece' pieces]; by rewrite <- IH.
Qed.

(** Nothing is lost by [split]: joining the pieces with commas gives the
    text back. *)
Theorem join_comma_split_comma s : join_comma (split_comma s) = s.
Proof. exact (join_comma_split s). Qed.

Lemma split_comma_app piece rest :
  commas piece = 0 →
  split_comma (piece +:+ String comma rest) = piece :: split_comma rest.
Proof.
  induction piece as [|c piece IH]; intros Hp; [by cbn|].
  cbn in Hp. change (String c piece +:+ String comma rest)
    with (String c (piece +:+ String comma rest)).
  cbn [split_comma]. destruct (Ascii.eqb c comma); [done|]. by rewrite IH.
Qed.

Lemma split_comma_single piece : commas piece = 0 → split_comma piece = [piece].
Proof.
  induction piece as [|c piece IH]; intros Hp; [done|].
  cbn in Hp |- *. destruct (Ascii.eqb c comma); [done|]. by rewrite IH.
Qed.

(** And back: pieces without commas, at least one of them, are what
    [split] finds in their join. *)
Theorem split_comma_join_comma pieces :
  pieces ≠ [] →
  Forall (λ piece, commas piece = 0) pieces →
  split_comma (join_comma pieces) = pieces.
Proof.
  intros Hne Hall. induction Hall as [|piece pieces Hp Hall IH]; [done|].
  destruct pieces as [|piece' pieces]; [by apply split_comma_single|].
  change (join_comma (piece :: piece' :: pieces))
    with (piece +:+ String comma (join_comma (piece' :: pieces))).
  rewrite split_comma_app by done. by rewrite IH.
Qed.

Lemma split_comma_join_comma_witness :
  split_comma (join_comma ["chess"; ""; " go "]) = ["chess"; ""; " go "].
Proof.
  apply split_comma_join_comma; [discriminate | by repeat constructor].
Defined.

Lemma trim_start_split s :
  ∃ pre, s = pre +:+ trim_start s ∧ all_white_space pre = true
    ∧ match first_unit (trim_start s) with
      | Some c => is_white_space c = false
      | None => True
      end.
Proof.
  induction s as [|c s (pre & Hs & Hpre & Hfirst)]; [by exists ""|].
  cbn. destruct (is_white_space c) eqn:Hc.
  - exists (String c pre).
    split; [change (String c s = String c (pre +:+ trim_start s)); by rewrite <- Hs|].
    cbn. by rewrite Hc, Hpre.
  - exists "". cbn. by rewrite Hc.
Qed.

Lemma all_white_space_last t c :
  match last_unit (String c t) with Some c' => is_white_space c' = false | None => True end →
  all_white_space (String c t) = false.
Proof.
  revert c. induction t as [|c' t IH]; intros c H.
  - cbn in *. by rewrite H.
  - change (last_unit (String c (String c' t))) with (last_unit (String c' t)) in H.
    change (all_white_space (String c (String c' t)))
      with (is_white_space c && all_white_space (String c' t)).
    rewrite (IH c' H). by destruct (is_white_space c).
Qed.

Lemma all_white_space_app_false u post :
  all_white_space u = false → all_white_space (u +:+ post) = false.
Proof.
  induction u as [|a u IH]; intros H; [discriminate|].
  change (is_white_space a && all_white_space (u +:+ post) = false).
  change (is_white_space a && all_white_space u = false) in H.
  destruct (is_white_space a); [exact (IH H) | reflexivity].
Qed.

Lemma trim_end_split s :
  ∃ post, s = trim_end s +:+ post ∧ all_white_space post = true
    ∧ match last_unit (trim_end s) with
      | Some c => is_white_space c = false
      | None => True
      end
    ∧ first_unit (trim_end s) =
        match first_unit s with
        | Some c => if is_white_space c && all_white_space s then None else Some c
        | None => None
        end.
Proof.
  induction s as [|c s (post & Hs & Hpost & Hlast & Hfirst)]; [by exists ""|].
  cbn [trim_end]. destruct (trim_end s) as [|c' t] eqn:Ht.
  - change ("" +:+ post) with post in Hs. subst post.
    destruct (is_white_space c) eqn:Hc.
    + exists (String c s). cbn. by rewrite Hc, Hpost.
    + exists s. cbn. by rewrite Hc.
  - exists post. 
    change (String c (String c' t) +:+ post) with (String c (String c' t +:+ post)).
    rewrite <- Hs. split; [done|]. split; [exact Hpost|]. split; [exact Hlast|].
    cbn [first_unit]. destruct (is_white_space c) eqn:Hc; [|done]. cbn [andb].
    enough (all_white_space (String c s) = false) as -> by done.
    cbn [all_white_space]. rewrite Hc. cbn [andb]. rewrite Hs.
    apply all_white_space_app_false. by apply all_white_space_last.
Qed.

Lemma trim_facts s :
  ∃ pre post,
    s = pre +:+ trim s +:+ post
    ∧ all_white_space pre = true
    ∧ all_white_space post = true
    ∧ match first_unit (trim s) with Some c => is_white_space c = false | None => True end
    ∧ match last_unit (trim s) with Some c => is_white_space c = false | None => True end.
Proof.
  destruct (trim_start_split s) as (pre & Hs & Hpre & Hfirst).
  destruct (trim_end_split (trim_start s)) as (post & Ht & Hpost & Hlast & Hfirst').
  exists pre, post. unfold trim. rewrite <- Ht, <- Hs.
  repeat split; try done.
  rewrite Hfirst'. destruct (first_unit (trim_start s)) as [c|]; [|done].
  by rewrite Hfirst.
Qed.

(** [trim] removes white space around a text and nothing else: the text is
    white space, then its trimmed form, then white space, and the trimmed
    form neither begins nor ends with white space. *)
Theorem trim_removes_surrounding_white_space s :
  ∃ pre post,
    s = pre +:+ trim s +:+ post
    ∧ all_white_space pre = true
    ∧ all_white_space post = true
    ∧ match first_unit (trim s) with Some c => is_white_space c = false | None => True end
    ∧ match last_unit (trim s) with Some c => is_white_space c = false | None => True end.
Proof. exact (trim_facts s). Qed.

Lemma commas_app a b : commas (a +:+ b) = commas a + commas b.
Proof.
  induction a as [|c a IH]; [done|].
  change (commas (String c (a +:+ b)) = commas (String c a) + commas b).
  cbn [commas]. rewrite IH. lia.
Qed.

Lemma trim_no_comma piece : commas piece = 0 → commas (trim piece) = 0.
Proof.
  intros Hp. destruct (trim_facts piece) as (pre & post & Hs & _).
  rewrite Hs, !commas_app in Hp. lia.
Qed.

(** What a registration posts: the username and the password as typed, and
    as interests the pieces of the interests box between its commas, each
    trimmed.  The pieces hold no comma and joined with commas they are the
    text of the box; each interest is its piece without the white space
    around it.  So there is one interest more than there are commas, an
    empty box posts one empty interest, no interest holds a comma, and
    none begins or ends with white space. *)
Theorem register_posts_trimmed_interests st :
  ∃ pieces interests,
    Register.posted (Register.step st Register.Submit) =
      Register.posted st ++
      [VObj {[ "username" := VStr (Register.username st);
               "password" := VStr (Register.password st);
               "interests" := VArr (VStr <$> interests) ]}]
    ∧ Register.inflight (Register.step st Register.Submit) = S (Register.inflight st)
    ∧ join_comma pieces = Register.interests st
    ∧ Forall (λ piece, commas piece = 0) pieces
    ∧ Forall2 (λ piece interest,
        ∃ pre post, piece = pre +:+ interest +:+ post
          ∧ all_white_space pre = true ∧ all_white_space post = true) pieces interests
    ∧ length interests = S (commas (Register.interests st))
    ∧ Forall (λ interest,
        commas interest = 0
        ∧ match first_unit interest with Some c => is_white_space c = false | None => True end
        ∧ match last_unit interest with Some c => is_white_space c = false | None => True end)
        interests.
Proof.
  exists (split_comma (Register.interests st)),
         (Register.interests_of (Register.interests st)).
  destruct (split_comma_facts (Register.interests st)) as [Hlen Hall].
  split; [reflexivity|]. split; [reflexivity|].
  split; [apply join_comma_split|]. split; [exact Hall|].
  unfold Register.interests_of. split; [|split; [by rewrite length_fmap|]].
  - apply Forall2_fmap_r, Forall_Forall2_diag, Forall_forall. intros piece _.
    destruct (trim_facts piece) as (pre & post & Hs & Hpre & Hpost & _). by exists pre, post.
  - apply Forall_fmap. revert Hall. apply Forall_impl. intros piece Hpiece. cbn.
    split; [by apply trim_no_comma|].
    destruct (trim_facts piece) as (_ & _ & _ & _ & _ & Hf & Hl). done.
Qed.
